(** * The GitHub worker: job pipeline, workspace and error wrapping

    A shallow embedding of the Pub/Sub Cloud Function (package [p]) and of
    its error package ([worker_error]).  Go strings are byte strings
    ([string]); the Go interface type [error] is [option error_value] with
    [None] for [nil]; the operating system, the [git] tool and the object
    store answer through an oracle ([Env]) that sees the history of calls;
    every call to them is recorded in a trace. *)

From Stdlib Require Import String Ascii ZArith List Bool.
From stdpp Require Import gmap strings list.

Open Scope string_scope.
Open Scope list_scope.

(** ** Strings *)

(** The one-character string holding a double quote. *)
Definition dq : string := String (ascii_of_nat 34) EmptyString.

(** [strings.HasSuffix]:
    [len(s) >= len(suffix) && s[len(s)-len(suffix):] == suffix]. *)
Definition HasSuffix (s suffix : string) : bool :=
  (String.length suffix <=? String.length s)%nat
  && String.eqb
       (String.substring (String.length s - String.length suffix)
                         (String.length suffix) s)
       suffix.

(** [strings.HasPrefix]. *)
Definition HasPrefix (s pre : string) : bool := String.prefix pre s.

(** [strings.Contains]: [substr] occurs somewhere in [s]. *)
Fixpoint Contains (s substr : string) : bool :=
  HasPrefix s substr
  || match s with
     | EmptyString => false
     | String _ s' => Contains s' substr
     end.

(** ** Package worker_error *)

Module worker_error.

(** Values of the interface type [error].  [LibError] is an error made by
    a library (os, os/exec, storage, iterator, context): the program only
    ever observes the text of its [Error()] method and what
    [json.Marshal] makes of its dynamic value ([None] when marshalling
    fails).  [WorkerError] is a value of this package's struct [err]. *)
Inductive error_value : Type :=
| LibError (text : string) (json : option string)
| WorkerError (w : err)
with err : Type :=
| mk_err (Err : option error_value) (Extra : string).

(** The interface type [error]; [None] is [nil]. *)
Definition error : Type := option error_value.

Definition Err (e : err) : error := match e with mk_err c _ => c end.
Definition Extra (e : err) : string := match e with mk_err _ x => x end.

(** [func New(e error, extra string) error { return err{Err: e, Extra: extra} }] *)
Definition New (e : error) (extra : string) : error :=
  Some (WorkerError (mk_err e extra)).

(** [func (e err) Unwrap() error { return e.Err }] *)
Definition Unwrap (e : err) : error := Err e.

(** [errors.Unwrap] on an interface value: calls the [Unwrap] method when
    the dynamic type is [err]. *)
Definition errors_Unwrap (e : error) : error :=
  match e with
  | Some (WorkerError w) => Unwrap w
  | _ => None
  end.

(** *** encoding/json on the struct [err] *)

Definition hex_digit (n : nat) : ascii :=
  nth n (list_ascii_of_string "0123456789abcdef") "0"%char.

(** One byte of a JSON string as [json.Marshal] writes it (HTML escaping
    is on by default): the quote and the backslash get a backslash, the
    usual control characters their letter (backspace and form feed too,
    as from Go 1.22), every other byte below 0x20 and [<], [>], [&] the
    form [\u00XX]; bytes from 0x80 on are copied (they belong to UTF-8
    sequences, which are written as they are). *)
Definition json_escape_byte (c : ascii) : string :=
  let n := nat_of_ascii c in
  if (n =? 34)%nat || (n =? 92)%nat then String "\"%char (String c EmptyString)
  else if (n =? 8)%nat then "\b"
  else if (n =? 12)%nat then "\f"
  else if (n =? 10)%nat then "\n"
  else if (n =? 13)%nat then "\r"
  else if (n =? 9)%nat then "\t"
  else if (n <? 32)%nat || (n =? 60)%nat || (n =? 62)%nat || (n =? 38)%nat
       then "\u00" +:+ String (hex_digit (n / 16)) (String (hex_digit (n mod 16)) EmptyString)
  else String c EmptyString.

Fixpoint json_escape (s : string) : string :=
  match s with
  | EmptyString => EmptyString
  | String c s' => json_escape_byte c +:+ json_escape s'
  end.

Definition json_quote (s : string) : string := dq +:+ json_escape s +:+ dq.

(** A JSON object from its already encoded members. *)
Definition json_object (members : list string) : string :=
  "{" +:+ String.concat "," members +:+ "}".

(** The member for [Extra string `json:"extra,omitempty"`]. *)
Definition extra_member (x : string) : list string :=
  if String.eqb x EmptyString then []
  else [json_quote "extra" +:+ ":" +:+ json_quote x].

(** [json.Marshal] of an error value held in an interface, and of the
    struct [err] with its tags [err,omitempty] and [extra,omitempty]:
    a nil [Err] and an empty [Extra] are left out. *)
Fixpoint marshal_value (v : error_value) : option string :=
  match v with
  | LibError _ j => j
  | WorkerError w => marshal_err w
  end
with marshal_err (w : err) : option string :=
  match w with
  | mk_err c x =>
      match c with
      | None => Some (json_object (extra_member x))
      | Some v =>
          match marshal_value v with
          | None => None
          | Some j =>
              Some (json_object ((json_quote "err" +:+ ":" +:+ j) :: extra_member x))
          end
      end
  end.

(** [func (e err) Error() string]: the JSON form when marshalling
    succeeds, otherwise [fmt.Sprintf("Err: %s | Extra: %s", e.Err, e.Extra)];
    [%s] of an error prints its [Error()] text and of a nil interface
    [%!s(<nil>)]. *)
Fixpoint Error_text (v : error_value) : string :=
  match v with
  | LibError t _ => t
  | WorkerError w => Error w
  end
with Error (w : err) : string :=
  match marshal_err w with
  | Some d => d
  | None =>
      match w with
      | mk_err c x =>
          "Err: "
          +:+ match c with
              | Some v => Error_text v
              | None => "%!s(<nil>)"
              end
          +:+ " | Extra: " +:+ x
      end
  end.

End worker_error.

Export worker_error.

(** ** The job and its paths *)

(** [PubSubMessage]: the payload of a Pub/Sub event (field [Data]). *)
Record PubSubMessage : Type := { payload : string }.

(** [Data]: the payload a message is expected to contain. *)
Record Data : Type := {
  UserID : string;
  GithubToken : string;
  GithubUsername : string;
  RepoName : string;
  ProjectName : string;
  FileName : string;
  StorageFilePath : string;
  CommitMessage : string
}.

(** [fmt.Sprintf("/tmp/%s", d.UserID)] *)
Definition localWorkingDir (d : Data) : string := "/tmp/" +:+ UserID d.

(** [fmt.Sprintf("%s/%s", d.localWorkingDir(), d.RepoName)] *)
Definition localRepoPath (d : Data) : string :=
  localWorkingDir d +:+ "/" +:+ RepoName d.

Definition localProjectPath (d : Data) : string :=
  localRepoPath d +:+ "/" +:+ ProjectName d.

Definition localRelativeFilePath (d : Data) : string :=
  ProjectName d +:+ "/" +:+ FileName d.

Definition localFilePath (d : Data) : string :=
  localRepoPath d +:+ "/" +:+ localRelativeFilePath d.

(** ** The world outside the program *)

(** Every call that leaves the program, in the order the calls are made. *)
Inductive Event : Type :=
| EvNewClient                                      (* storage.NewClient *)
| EvExec (dir : string) (name : string) (args : list string)
                                                   (* exec.CommandContext + cmd.Output *)
| EvMkdir (path : string)                          (* os.Mkdir *)
| EvObjects (bucket prefix : string)               (* bucket.Objects with Query{Prefix} *)
| EvNext                                           (* it.Next *)
| EvLog (severity message : string)                (* logger.Println(Entry) *)
| EvNewReader (bucket object : string)             (* bucket.Object(o).NewReader *)
| EvReaderClose (object : string)                  (* r.Close *)
| EvMkdirAll (path : string)                       (* os.MkdirAll *)
| EvCreate (path : string)                         (* os.Create *)
| EvCopy (object path : string)                    (* io.Copy(w, r) *)
| EvFileClose (path : string)                      (* w.Close *)
| EvRemoveAll (path : string).                     (* os.RemoveAll *)

(** What a finished command leaves: its two output streams and the error
    of [cmd.Output] ([nil] exactly when the command ran and exited with
    status zero).  [cmd.Output] hands back the standard output only. *)
Record CmdResult : Type := {
  Stdout : string;
  Stderr : string;
  ExitErr : error
}.

(** What [it.Next] yields before [iterator.Done]. *)
Inductive ListItem : Type :=
| Object (Name : string)
| ListError (e : error_value).

(** The environment: process configuration read at start, library
    functions the program calls, and the answers of the outside world.
    An answer may depend on everything that happened before (the trace at
    the moment of the call).  The [_fault] fields are the failures of a
    filesystem call that the files present do not explain (permissions,
    full disk, busy mount point). *)
Record Env : Type := {
  bucketName : string;
  committerEmail : string;
  committerName : string;
  json_Unmarshal : string -> Data + error_value;
  storage_NewClient : list Event -> error;
  cmd_Output : list Event -> string -> string -> list string -> CmdResult;
  bucket_Objects : list Event -> string -> string -> list ListItem;
  object_NewReader : list Event -> string -> string -> error;
  io_Copy : list Event -> string -> string -> error;
  os_Mkdir_fault : list Event -> string -> error;
  os_MkdirAll_fault : list Event -> string -> error;
  os_Create_fault : list Event -> string -> error;
  os_RemoveAll_fault : list Event -> string -> error;
  path_Dir : string -> string;
  strconv_Quote : string -> string
}.

Inductive Node : Type := Dir | File.

(** The handle [*storage.Client]. *)
Inductive Client : Type := TheClient.

(** The state the program runs in: the local disk (the paths that exist,
    compared as they are written), the trace, and the package variables
    [once] and [storageClient]. *)
Record World : Type := {
  fs : gmap string Node;
  trace : list Event;
  once_done : bool;
  storageClient : option Client
}.

Definition emit (e : Event) (w : World) : World :=
  {| fs := fs w; trace := trace w ++ [e];
     once_done := once_done w; storageClient := storageClient w |}.

Definition with_fs (f : gmap string Node) (w : World) : World :=
  {| fs := f; trace := trace w;
     once_done := once_done w; storageClient := storageClient w |}.

Definition with_client (c : option Client) (w : World) : World :=
  {| fs := fs w; trace := trace w;
     once_done := once_done w; storageClient := c |}.

Definition mark_done (w : World) : World :=
  {| fs := fs w; trace := trace w;
     once_done := true; storageClient := storageClient w |}.

(** How a Go function call ends. *)
Inductive Outcome : Type :=
| Returned (e : error)
| Panicked.

(** ** Package os *)

(** [*os.PathError{Op, Path, Err: syscall.Errno(n)}]: its text is
    [Op Path: message] and its JSON form has the three exported fields,
    the errno as a number. *)
Definition PathError (op path : string) (errno : string) (msg : string) : error_value :=
  LibError (op +:+ " " +:+ path +:+ ": " +:+ msg)
           (Some (json_object [json_quote "Op" +:+ ":" +:+ json_quote op;
                               json_quote "Path" +:+ ":" +:+ json_quote path;
                               json_quote "Err" +:+ ":" +:+ errno])).

Definition EEXIST (op path : string) : error_value := PathError op path "17" "file exists".
Definition ENOTDIR (op path : string) : error_value := PathError op path "20" "not a directory".
Definition EISDIR (op path : string) : error_value := PathError op path "21" "is a directory".

(** [os.Mkdir(path, perm)]: fails when the path exists. *)
Definition os_Mkdir (env : Env) (path : string) (w : World) : error * World :=
  let w1 := emit (EvMkdir path) w in
  match fs w !! path with
  | Some _ => (Some (EEXIST "mkdir" path), w1)
  | None =>
      match os_Mkdir_fault env (trace w) path with
      | Some e => (Some e, w1)
      | None => (None, with_fs (<[path := Dir]> (fs w)) w1)
      end
  end.

(** [os.MkdirAll(path, perm)]: nothing to do when the path is a
    directory, an error when it is a file. *)
Definition os_MkdirAll (env : Env) (path : string) (w : World) : error * World :=
  let w1 := emit (EvMkdirAll path) w in
  match fs w !! path with
  | Some Dir => (None, w1)
  | Some File => (Some (ENOTDIR "mkdir" path), w1)
  | None =>
      match os_MkdirAll_fault env (trace w) path with
      | Some e => (Some e, w1)
      | None => (None, with_fs (<[path := Dir]> (fs w)) w1)
      end
  end.

(** [os.Create(name)]: creates or truncates the file. *)
Definition os_Create (env : Env) (path : string) (w : World) : error * World :=
  let w1 := emit (EvCreate path) w in
  match fs w !! path with
  | Some Dir => (Some (EISDIR "open" path), w1)
  | _ =>
      match os_Create_fault env (trace w) path with
      | Some e => (Some e, w1)
      | None => (None, with_fs (<[path := File]> (fs w)) w1)
      end
  end.

(** [under path k]: [k] is [path] or lies below it. *)
Definition under (path k : string) : bool :=
  String.eqb k path || HasPrefix k (path +:+ "/").

(** [os.RemoveAll(path)]: removes the path and everything below it; when
    it reports an error the tree is (at least in part) still there. *)
Definition os_RemoveAll (env : Env) (path : string) (w : World) : error * World :=
  let w1 := emit (EvRemoveAll path) w in
  match os_RemoveAll_fault env (trace w) path with
  | Some e => (Some e, w1)
  | None =>
      (None, with_fs (filter (fun kv : string * Node => under path kv.1 = false) (fs w)) w1)
  end.

(** [exec.CommandContext(ctx, name, args...)], [cmd.Dir = dir] (empty:
    not set) and [cmd.Output()]: the standard output and the error. *)
Definition run_Output (env : Env) (dir name : string) (args : list string)
    (w : World) : (string * error) * World :=
  let r := cmd_Output env (trace w) dir name args in
  ((Stdout r, ExitErr r), emit (EvExec dir name args) w).

(** ** Package logger *)

(** [log.Error(v...)]: one entry of severity ERROR whose message is
    [fmt.Sprint(v...)]. *)
Definition log_Error (message : string) (w : World) : World :=
  emit (EvLog "ERROR" message) w.

(** ** Package p: the worker *)

(** [func setup(ctx) error]: the storage client, then the global git
    identity.  [storage.NewClient] returns a nil client with its error. *)
Definition setup (env : Env) (w : World) : error * World :=
  let w1 := emit EvNewClient w in
  match storage_NewClient env (trace w) with
  | Some e => (Some e, with_client None w1)
  | None =>
      let w2 := with_client (Some TheClient) w1 in
      let '((out, err), w3) :=
        run_Output env EmptyString "git"
          ["config"; "--global"; "user.email"; dq +:+ committerEmail env +:+ dq] w2 in
      match err with
      | Some _ => (New err out, w3)
      | None =>
          let '((out, err), w4) :=
            run_Output env EmptyString "git"
              ["config"; "--global"; "user.name"; dq +:+ committerName env +:+ dq] w3 in
          match err with
          | Some _ => (New err out, w4)
          | None => (None, w4)
          end
      end
  end.

(** [func (d *Data) makeWorkingDir(ctx) error] *)
Definition makeWorkingDir (env : Env) (d : Data) (w : World) : error * World :=
  os_Mkdir env (localWorkingDir d) w.

(** The URL [fmt.Sprintf("https://%s@github.com/%s/%s.git", ...)]. *)
Definition cloneURL (d : Data) : string :=
  "https://" +:+ GithubToken d +:+ "@github.com/" +:+ GithubUsername d
  +:+ "/" +:+ RepoName d +:+ ".git".

(** [func (d *Data) cloneGithubRepo(ctx) error] *)
Definition cloneGithubRepo (env : Env) (d : Data) (w : World) : error * World :=
  let '((out, err), w1) :=
    run_Output env (localWorkingDir d) "git" ["clone"; cloneURL d] w in
  match err with
  | Some _ => (New err out, w1)
  | None => (None, w1)
  end.

(** [func (d *Data) _writeContentFromStorageToFile(ctx, bucket, object)]:
    the reader is closed on every way out once it is open, the file
    once it is created (the two deferred calls, last deferred first). *)
Definition _writeContentFromStorageToFile (env : Env) (d : Data)
    (bucket object : string) (w : World) : error * World :=
  let w1 := emit (EvNewReader bucket object) w in
  match object_NewReader env (trace w) bucket object with
  | Some e => (Some e, w1)
  | None =>
      let '(err, w5) :=
        let '(err, w2) := os_MkdirAll env ("/tmp/" +:+ path_Dir env object) w1 in
        match err with
        | Some _ => (err, w2)
        | None =>
            let dst := "/tmp/" +:+ object in
            let '(err, w3) := os_Create env dst w2 in
            match err with
            | Some _ => (err, w3)
            | None =>
                let err := io_Copy env (trace w3) object dst in
                let w4 := emit (EvCopy object dst) w3 in
                (err, emit (EvFileClose dst) w4)
            end
        end in
      (err, emit (EvReaderClose object) w5)
  end.

(** The first loop of [writeContentFromStorageToFile]: [it.Next] until
    [iterator.Done]; a name is kept unless it ends in a slash; any other
    error is logged and returned. *)
Fixpoint drain (env : Env) (items : list ListItem) (files : list string)
    (w : World) : (error_value + list string) * World :=
  match items with
  | [] => (inr files, emit EvNext w)
  | ListError e :: _ =>
      (inl e,
       log_Error ("Bucket(" +:+ strconv_Quote env (bucketName env)
                  +:+ ").Objects: " +:+ Error_text e)
                 (emit EvNext w))
  | Object name :: rest =>
      drain env rest
            (if negb (HasSuffix name "/") then files ++ [name] else files)
            (emit EvNext w)
  end.

(** The second loop: the files one after the other, until one fails. *)
Fixpoint write_files (env : Env) (d : Data) (bucket : string)
    (files : list string) (w : World) : error * World :=
  match files with
  | [] => (None, w)
  | file :: rest =>
      let '(err, w1) := _writeContentFromStorageToFile env d bucket file w in
      match err with
      | Some _ => (err, w1)
      | None => write_files env d bucket rest w1
      end
  end.

(** [func (d *Data) writeContentFromStorageToFile(ctx) error].  With a nil
    [storageClient] the first use of the client dereferences a nil
    pointer. *)
Definition writeContentFromStorageToFile (env : Env) (d : Data) (w : World)
    : Outcome * World :=
  match storageClient w with
  | None => (Panicked, w)
  | Some _ =>
      let bucket := bucketName env in
      let items := bucket_Objects env (trace w) bucket (UserID d) in
      let w1 := emit (EvObjects bucket (UserID d)) w in
      match drain env items [] w1 with
      | (inl e, w2) => (Returned (Some e), w2)
      | (inr files, w2) =>
          let '(err, w3) := write_files env d bucket files w2 in
          (Returned err, w3)
      end
  end.

(** [func (d *Data) makeGitCommit(ctx) error] *)
Definition makeGitCommit (env : Env) (d : Data) (w : World) : error * World :=
  let '((out, err), w1) :=
    run_Output env (localRepoPath d) "git" ["add"; localRelativeFilePath d] w in
  match err with
  | Some _ => (New err out, w1)
  | None =>
      let '((out, err), w2) :=
        run_Output env (localRepoPath d) "git" ["commit"; "-m"; CommitMessage d] w1 in
      match err with
      | Some _ => (New err out, w2)
      | None => (None, w2)
      end
  end.

(** [func (d *Data) pushToRemote(ctx) error] *)
Definition pushToRemote (env : Env) (d : Data) (w : World) : error * World :=
  let '((out, err), w1) :=
    run_Output env (localRepoPath d) "git" ["push"; "-u"; "origin"; "HEAD"] w in
  match err with
  | Some _ => (New err out, w1)
  | None => (None, w1)
  end.

(** [func (d *Data) cleanup() { _ = os.RemoveAll(d.localWorkingDir()) }] *)
Definition cleanup (env : Env) (d : Data) (w : World) : World :=
  snd (os_RemoveAll env (localWorkingDir d) w).

(** The body of [process], between the [defer] and the function's end. *)
Definition process_body (env : Env) (d : Data) (w : World) : Outcome * World :=
  let '(err, w1) := makeWorkingDir env d w in
  match err with
  | Some _ => (Returned (New err "makeWorkingDir"), w1)
  | None =>
  let '(err, w2) := cloneGithubRepo env d w1 in
  match err with
  | Some _ => (Returned (New err "cloneGithubRepo"), w2)
  | None =>
  match writeContentFromStorageToFile env d w2 with
  | (Panicked, w3) => (Panicked, w3)
  | (Returned (Some e), w3) =>
      (Returned (New (Some e) "writeContentFromStorageToFile"), w3)
  | (Returned None, w3) =>
  let '(err, w4) := makeGitCommit env d w3 in
  match err with
  | Some _ => (Returned (New err "makeGitCommit"), w4)
  | None =>
  let '(err, w5) := pushToRemote env d w4 in
  match err with
  | Some _ => (Returned (New err "pushToRemote"), w5)
  | None => (Returned None, w5)
  end end end end end.

(** [func process(ctx, data) error]: [defer data.cleanup()] runs when the
    body is left, by a return or by a panic, after the result is set. *)
Definition process (env : Env) (d : Data) (w : World) : Outcome * World :=
  let '(r, w1) := process_body env d w in
  (r, cleanup env d w1).

(** [once.Do(f)]: [f] runs unless a call of [Do] has run it before; [f]
    may assign variables of the caller ([locals]). *)
Definition once_Do {L : Type} (f : L * World -> L * World) (s : L * World)
    : L * World :=
  if once_done (snd s) then s
  else let '(l, w) := f s in (l, mark_done w).

(** [func Run(ctx, m PubSubMessage) (err error)] *)
Definition Run (env : Env) (m : PubSubMessage) (w : World) : Outcome * World :=
  match json_Unmarshal env (payload m) with
  | inr e => (Returned (Some e), log_Error (Error_text e) w)
  | inl data =>
      let '(err, w1) :=
        once_Do (fun s : error * World => setup env (snd s)) (None, w) in
      match err with
      | Some e => (Returned err, log_Error (Error_text e) w1)
      | None =>
          match process env data w1 with
          | (Returned (Some e), w2) =>
              (Returned (Some e), log_Error (Error_text e) w2)
          | r => r
          end
      end
  end.

(** ** Observing a run *)

(** The stages of the pipeline and the names [process] gives them. *)
Inductive Stage : Type :=
| StMakeWorkingDir | StClone | StWrite | StCommit | StPush.

Global Instance Stage_eq_dec : EqDecision Stage.
Proof. solve_decision. Defined.

Definition stage_name (s : Stage) : string :=
  match s with
  | StMakeWorkingDir => "makeWorkingDir"
  | StClone => "cloneGithubRepo"
  | StWrite => "writeContentFromStorageToFile"
  | StCommit => "makeGitCommit"
  | StPush => "pushToRemote"
  end.

Definition all_stages : list Stage :=
  [StMakeWorkingDir; StClone; StWrite; StCommit; StPush].

(** The stage an outside call belongs to: the git sub-command tells the
    version-control stages apart; log entries and the removal of the
    workspace belong to none. *)
Definition event_stage (e : Event) : option Stage :=
  match e with
  | EvMkdir _ => Some StMakeWorkingDir
  | EvExec _ _ (sub :: _) =>
      if String.eqb sub "clone" then Some StClone
      else if String.eqb sub "add" || String.eqb sub "commit" then Some StCommit
      else if String.eqb sub "push" then Some StPush
      else None
  | EvObjects _ _ | EvNext | EvNewReader _ _ | EvReaderClose _
  | EvMkdirAll _ | EvCreate _ | EvCopy _ _ | EvFileClose _ => Some StWrite
  | _ => None
  end.

(** Adjacent repetitions removed. *)
Fixpoint collapse (l : list Stage) : list Stage :=
  match l with
  | [] => []
  | s :: rest =>
      match rest with
      | s' :: _ => if decide (s = s') then collapse rest else s :: collapse rest
      | [] => [s]
      end
  end.

(** The stages seen in a list of events, in order. *)
Definition stages_of (evs : list Event) : list Stage :=
  collapse (omap event_stage evs).

Definition is_RemoveAll (e : Event) : bool :=
  match e with EvRemoveAll _ => true | _ => false end.

(** An object was opened for copying. *)
Definition is_copy_event (e : Event) : bool :=
  match e with
  | EvNewReader _ _ | EvReaderClose _ | EvMkdirAll _ | EvCreate _
  | EvCopy _ _ | EvFileClose _ => true
  | _ => false
  end.

(** [w'] is [w] after the calls [evs]. *)
Definition emits (w w' : World) (evs : list Event) : Prop :=
  trace w' = trace w ++ evs.

(** The environment with another answer to [os.RemoveAll]. *)
Definition with_RemoveAll_fault (f : list Event -> string -> error) (env : Env) : Env :=
  {| bucketName := bucketName env;
     committerEmail := committerEmail env;
     committerName := committerName env;
     json_Unmarshal := json_Unmarshal env;
     storage_NewClient := storage_NewClient env;
     cmd_Output := cmd_Output env;
     bucket_Objects := bucket_Objects env;
     object_NewReader := object_NewReader env;
     io_Copy := io_Copy env;
     os_Mkdir_fault := os_Mkdir_fault env;
     os_MkdirAll_fault := os_MkdirAll_fault env;
     os_Create_fault := os_Create_fault env;
     os_RemoveAll_fault := f;
     path_Dir := path_Dir env;
     strconv_Quote := strconv_Quote env |}.


(** ** Concrete environments and jobs *)

(** The part of a key before its last slash: [path.Dir] on keys without
    dots or doubled slashes. *)
Fixpoint before_last_slash (s : string) : option string :=
  match s with
  | EmptyString => None
  | String c s' =>
      match before_last_slash s' with
      | Some p => Some (String c p)
      | None => if Ascii.eqb c "/"%char then Some EmptyString else None
      end
  end.

Definition example_Dir (s : string) : string :=
  match before_last_slash s with
  | Some EmptyString => "/"
  | Some p => p
  | None => "."
  end.

(** The job of the specification's example. *)
Definition job_u1 : Data :=
  {| UserID := "u1"; GithubToken := "tok"; GithubUsername := "alice";
     RepoName := "notes"; ProjectName := "p1"; FileName := "a.md";
     StorageFilePath := "u1/a.md"; CommitMessage := "update" |}.

Definition job_empty_user : Data :=
  {| UserID := EmptyString; GithubToken := "tok"; GithubUsername := "alice";
     RepoName := "notes"; ProjectName := "p1"; FileName := "a.md";
     StorageFilePath := "a.md"; CommitMessage := "update" |}.

Definition cmd_ok : CmdResult :=
  {| Stdout := EmptyString; Stderr := EmptyString; ExitErr := None |}.

(** An environment whose payloads all decode to [job], with the given
    answers of the client constructor, the commands, the listing, the
    copy and the removal; every other call succeeds. *)
Definition example_env (job : Data)
    (newclient : list Event -> error)
    (cmd : list Event -> string -> string -> list string -> CmdResult)
    (objects : list ListItem)
    (copy : string -> error)
    (rmfault : string -> error) : Env :=
  {| bucketName := "ide-bucket";
     committerEmail := "bot@example.com";
     committerName := "bot";
     json_Unmarshal := fun _ => inl job;
     storage_NewClient := newclient;
     cmd_Output := cmd;
     bucket_Objects := fun _ _ _ => objects;
     object_NewReader := fun _ _ _ => None;
     io_Copy := fun _ object _ => copy object;
     os_Mkdir_fault := fun _ _ => None;
     os_MkdirAll_fault := fun _ _ => None;
     os_Create_fault := fun _ _ => None;
     os_RemoveAll_fault := fun _ path => rmfault path;
     path_Dir := example_Dir;
     strconv_Quote := fun s => dq +:+ s +:+ dq |}.

(** Everything succeeds; the store holds a directory marker and one file. *)
Definition calm_env : Env :=
  example_env job_u1 (fun _ => None) (fun _ _ _ _ => cmd_ok)
              [Object "u1/"; Object "u1/a.md"] (fun _ => None) (fun _ => None).

(** A fresh process on a machine with an empty [/tmp]. *)
Definition boot : World :=
  {| fs := {["/tmp" := Dir]}; trace := []; once_done := false;
     storageClient := None |}.

(** The same process once [setup] has run and succeeded. *)
Definition warm : World :=
  {| fs := {["/tmp" := Dir]}; trace := []; once_done := true;
     storageClient := Some TheClient |}.


(** [*exec.ExitError] as [cmd.Output] returns it: its text is the exit
    status; its only exported field is [Stderr []byte], which
    [json.Marshal] writes in base64. *)
Definition ExitError (status stderr_base64 : string) : error_value :=
  LibError ("exit status " +:+ status)
           (Some (json_object [json_quote "Stderr" +:+ ":" +:+ json_quote stderr_base64])).


(** What [git clone] leaves when the token is refused: nothing on the
    standard output, the complaint on the standard error, status 128. *)
Definition exit_128 : error_value :=
  ExitError "128" "ZmF0YWw6IEF1dGhlbnRpY2F0aW9uIGZhaWxlZA==".

Definition cmd_auth_failure : CmdResult :=
  {| Stdout := EmptyString;
     Stderr := "fatal: Authentication failed";
     ExitErr := Some exit_128 |}.

Definition clone_refused_env : Env :=
  example_env job_u1 (fun _ => None)
    (fun _ _ _ args =>
       match args with
       | sub :: _ => if String.eqb sub "clone" then cmd_auth_failure else cmd_ok
       | [] => cmd_ok
       end)
    [Object "u1/"; Object "u1/a.md"] (fun _ => None) (fun _ => None).

(** ** Vocabulary of the statements *)

(** [w] after the calls [evs], none of which changes the disk. *)
Definition emit_list (evs : list Event) (w : World) : World :=
  {| fs := fs w; trace := trace w ++ evs;
     once_done := once_done w; storageClient := storageClient w |}.

(** What the iterator yields before it stops: the names up to the first
    error, and that error if there is one. *)
Fixpoint listing (items : list ListItem) : list string * option error_value :=
  match items with
  | [] => ([], None)
  | Object name :: rest => let '(names, e) := listing rest in (name :: names, e)
  | ListError e :: _ => ([], Some e)
  end.


(** The objects a list of calls opens for reading, in order. *)
Definition opened (evs : list Event) : list string :=
  omap (fun e => match e with EvNewReader _ o => Some o | _ => None end) evs.

(** The entry [writeContentFromStorageToFile] logs for a listing error. *)
Definition listing_log (env : Env) (e : error_value) : Event :=
  EvLog "ERROR" ("Bucket(" +:+ strconv_Quote env (bucketName env)
                 +:+ ").Objects: " +:+ Error_text e).

(** An event of stage [s]: a call of that stage, or a log entry. *)
Definition of_stage (s : Stage) (e : Event) : Prop :=
  event_stage e = Some s \/ exists m, e = EvLog "ERROR" m.

(** A block of events of one stage [s], beginning with a call of [s]. *)
Definition block (s : Stage) (evs : list Event) : Prop :=
  Forall (of_stage s) evs
  /\ exists n, omap event_stage evs = replicate (S n) s.

Definition is_publish_stage (s : Stage) : bool :=
  match s with StCommit | StPush => true | _ => false end.

(** A sub-step of the commit or push stage. *)
Definition is_publish_event (e : Event) : bool :=
  match event_stage e with
  | Some s => is_publish_stage s
  | None => false
  end.

(** The store lists a marker and two files; copying the second file fails. *)
Definition copy_failure : error_value :=
  LibError "unexpected EOF" (Some "{}").

Definition second_copy_fails_env : Env :=
  example_env job_u1 (fun _ => None) (fun _ _ _ _ => cmd_ok)
    [Object "u1/"; Object "u1/a.md"; Object "u1/b.md"]
    (fun object => if String.eqb object "u1/b.md" then Some copy_failure else None)
    (fun _ => None).

(** ** The transition rule of the specification *)

(** A stage as the orchestrator sees it. *)
Definition StageFn : Type := World -> Outcome * World.

Definition returning (f : World -> error * World) : StageFn :=
  fun w => let '(e, w') := f w in (Returned e, w').

(** The stages in their fixed order. *)
Definition pipeline (env : Env) (d : Data) : list (Stage * StageFn) :=
  [ (StMakeWorkingDir, returning (makeWorkingDir env d));
    (StClone, returning (cloneGithubRepo env d));
    (StWrite, writeContentFromStorageToFile env d);
    (StCommit, returning (makeGitCommit env d));
    (StPush, returning (pushToRemote env d)) ].

(** Each stage runs only if the previous one succeeded; a stage error ends
    the run with that stage's name attached to the cause, and the stages
    after it are not run.  The third component lists the stages run. *)
Fixpoint run_stages (stages : list (Stage * StageFn)) (w : World)
    : Outcome * World * list Stage :=
  match stages with
  | [] => (Returned None, w, [])
  | (st, f) :: rest =>
      match f w with
      | (Returned None, w1) =>
          let '(o, w2, ran) := run_stages rest w1 in (o, w2, st :: ran)
      | (Returned (Some cause), w1) =>
          (Returned (New (Some cause) (stage_name st)), w1, [st])
      | (Panicked, w1) => (Panicked, w1, [st])
      end
  end.

(** The workspace is gone whenever [process] returns. *)
Definition workspace_gone_after_process (env : Env) (d : Data) (w : World) : Prop :=
  forall r, (process env d w).1 = Returned r ->
            fs (process env d w).2 !! localWorkingDir d = None.

(** The removal of the workspace fails: the device is busy. *)
Definition removal_failure (path : string) : error_value :=
  PathError "unlinkat" path "16" "device or resource busy".

Definition removal_fails_env : Env :=
  example_env job_u1 (fun _ => None) (fun _ _ _ _ => cmd_ok)
    [Object "u1/"; Object "u1/a.md"] (fun _ => None)
    (fun path => Some (removal_failure path)).

(** [git config] fails (no writable home directory): the initialisation
    fails at its second step; every other command succeeds. *)
Definition exit_255 : error_value :=
  ExitError "255" "ZmF0YWw6ICRIT01FIG5vdCBzZXQ=".

Definition cmd_config_failure : CmdResult :=
  {| Stdout := EmptyString;
     Stderr := "fatal: $HOME not set";
     ExitErr := Some exit_255 |}.

Definition setup_fails_env : Env :=
  example_env job_u1 (fun _ => None)
    (fun _ _ _ args =>
       match args with
       | sub :: _ => if String.eqb sub "config" then cmd_config_failure else cmd_ok
       | [] => cmd_ok
       end)
    [Object "u1/"; Object "u1/a.md"] (fun _ => None) (fun _ => None).

(** The storage client cannot be made (no credentials). *)
Definition no_credentials : error_value :=
  LibError "dialing: google: could not find default credentials" (Some "{}").

Definition no_client_env : Env :=
  example_env job_u1 (fun _ => Some no_credentials) (fun _ _ _ _ => cmd_ok)
    [Object "u1/"; Object "u1/a.md"] (fun _ => None) (fun _ => None).

(** The events of [w'] that are not yet in [w]. *)
Definition events_since (w w' : World) : list Event :=
  drop (length (trace w)) (trace w').

(** [context.Canceled]: a value made by [errors.New], a pointer to a
    struct without exported fields, which [json.Marshal] writes as the
    empty object. *)
Definition context_Canceled : error_value :=
  LibError "context canceled" (Some "{}").

(** The listing is cut short on its second page. *)
Definition listing_fails_env : Env :=
  example_env job_u1 (fun _ => None) (fun _ _ _ _ => cmd_ok)
    [Object "u1/"; Object "u1/a.md"; ListError context_Canceled]
    (fun _ => None) (fun _ => None).

(** The text of an error as its holder reads it: [err.Error()]. *)
Definition message (e : error) : string :=
  match e with
  | Some v => Error_text v
  | None => EmptyString
  end.

Definition returned_error (o : Outcome) : error :=
  match o with
  | Returned e => e
  | Panicked => None
  end.

(** ** Package logger: the entries *)

(** [Entry]: a log entry. *)
Record Entry : Type := {
  Message : string;
  Severity : string;
  Trace : string;
  Component : string
}.

(** A member tagged [omitempty]: left out when the string is empty. *)
Definition omitempty (key value : string) : list string :=
  if String.eqb value EmptyString then []
  else [json_quote key +:+ ":" +:+ json_quote value].

(** [func (e Entry) String() string]: the severity defaults to INFO, then
    the entry is marshalled; [message] is always written, the other three
    members only when they are not empty.  Marshalling a struct of
    strings cannot fail. *)
Definition Entry_String (e : Entry) : string :=
  let severity :=
    if String.eqb (Severity e) EmptyString then "INFO" else Severity e in
  json_object
    ((json_quote "message" +:+ ":" +:+ json_quote (Message e))
       :: omitempty "severity" severity
       ++ omitempty "logger.googleapis.com/trace" (Trace e)
       ++ omitempty "component" (Component e)).

Definition newline : string := String (ascii_of_nat 10) EmptyString.

(** [logger.Println(entry)]: the entry's [String()] and a line feed. *)
Definition Println (e : Entry) : string := Entry_String e +:+ newline.

(** The line a level function writes for the message [fmt.Sprint(v...)]:
    [Debug], [Info], [Error], [Warning], [Notice], [Critical], [Alert]
    and [Emergency] differ in the severity only. *)
Definition level_line (severity message : string) : string :=
  Println {| Message := message; Severity := severity;
             Trace := EmptyString; Component := EmptyString |}.

Definition logger_Debug : string -> string := level_line "DEBUG".
Definition logger_Info : string -> string := level_line "INFO".
Definition logger_Error : string -> string := level_line "ERROR".
Definition logger_Warning : string -> string := level_line "WARNING".
Definition logger_Notice : string -> string := level_line "NOTICE".
Definition logger_Critical : string -> string := level_line "CRITICAL".
Definition logger_Alert : string -> string := level_line "ALERT".
Definition logger_Emergency : string -> string := level_line "EMERGENCY".

(** The line on the standard error for a log event of the trace. *)
Definition written_line (e : Event) : option string :=
  match e with
  | EvLog severity message => Some (level_line severity message)
  | _ => None
  end.

(** Every byte of [s] satisfies [p]. *)
Fixpoint all_bytes (p : ascii -> bool) (s : string) : bool :=
  match s with
  | EmptyString => true
  | String c s' => p c && all_bytes p s'
  end.

(** Not a control character: line feeds, tabs and the like are below 32. *)
Definition printable (c : ascii) : bool := (32 <=? nat_of_ascii c)%nat.

(** ** Vocabulary of the further statements *)

Definition is_log (e : Event) : bool :=
  match e with EvLog _ _ => true | _ => false end.

(** A call of the initialisation: the client constructor or [git config]. *)
Definition is_init_event (e : Event) : bool :=
  match e with
  | EvNewClient => true
  | EvExec _ _ (sub :: _) => String.eqb sub "config"
  | _ => false
  end.

(** The calls of a complete initialisation. *)
Definition init_calls (env : Env) : list Event :=
  [ EvNewClient;
    EvExec EmptyString "git"
      ["config"; "--global"; "user.email"; dq +:+ committerEmail env +:+ dq];
    EvExec EmptyString "git"
      ["config"; "--global"; "user.name"; dq +:+ committerName env +:+ dq] ].

(** The invoking layer hands the messages to [Run] one after the other;
    a panic ends the process. *)
Fixpoint Run_each (env : Env) (ms : list PubSubMessage) (w : World) : World :=
  match ms with
  | [] => w
  | m :: rest =>
      match Run env m w with
      | (Panicked, w1) => w1
      | (Returned _, w1) => Run_each env rest w1
      end
  end.

(** The commands a job may run: [git clone] in the workspace, and
    [git add], [git commit], [git push] in the repository. *)
Definition job_command (d : Data) (e : Event) : Prop :=
  match e with
  | EvExec dir name args =>
      name = "git"
      /\ ((dir = localWorkingDir d /\ args = ["clone"; cloneURL d])
          \/ (dir = localRepoPath d
              /\ (args = ["add"; localRelativeFilePath d]
                  \/ args = ["commit"; "-m"; CommitMessage d]
                  \/ args = ["push"; "-u"; "origin"; "HEAD"])))
  | _ => True
  end.

(** The job with another storage path. *)
Definition with_StorageFilePath (s : string) (d : Data) : Data :=
  {| UserID := UserID d; GithubToken := GithubToken d;
     GithubUsername := GithubUsername d; RepoName := RepoName d;
     ProjectName := ProjectName d; FileName := FileName d;
     StorageFilePath := s; CommitMessage := CommitMessage d |}.




(** [w'] has the package variables of [w]. *)
Definition same_vars (w w' : World) : Prop :=
  once_done w' = once_done w /\ storageClient w' = storageClient w.
(** ** Basic facts about the calls *)

Section Calls.
Context (env : Env).

Lemma emits_refl w : emits w w [].
Proof. unfold emits. by rewrite app_nil_r. Qed.

Lemma emits_trans w w1 w2 a b :
  emits w w1 a -> emits w1 w2 b -> emits w w2 (a ++ b).
Proof. unfold emits. intros -> ->. by rewrite app_assoc. Qed.

Lemma emits_emit e w : emits w (emit e w) [e].
Proof. reflexivity. Qed.

Lemma emits_inj w w' a b : emits w w' a -> emits w w' b -> a = b.
Proof. unfold emits. intros -> H. by apply app_inv_head in H. Qed.

Lemma os_Mkdir_emits p w : emits w (os_Mkdir env p w).2 [EvMkdir p].
Proof.
  unfold os_Mkdir. destruct (fs w !! p); [reflexivity|].
  destruct (os_Mkdir_fault env (trace w) p); reflexivity.
Qed.

Lemma os_MkdirAll_emits p w : emits w (os_MkdirAll env p w).2 [EvMkdirAll p].
Proof.
  unfold os_MkdirAll. destruct (fs w !! p) as [[]|]; try reflexivity.
  destruct (os_MkdirAll_fault env (trace w) p); reflexivity.
Qed.

Lemma os_Create_emits p w : emits w (os_Create env p w).2 [EvCreate p].
Proof.
  unfold os_Create.
  destruct (fs w !! p) as [[]|]; try reflexivity;
    destruct (os_Create_fault env (trace w) p); reflexivity.
Qed.

Lemma os_RemoveAll_emits p w : emits w (os_RemoveAll env p w).2 [EvRemoveAll p].
Proof.
  unfold os_RemoveAll. destruct (os_RemoveAll_fault env (trace w) p); reflexivity.
Qed.

Lemma run_Output_emits dir name args w :
  emits w (run_Output env dir name args w).2 [EvExec dir name args].
Proof. reflexivity. Qed.

(** None of the calls of the stages touches the package variables. *)
Lemma os_Mkdir_client p w : storageClient (os_Mkdir env p w).2 = storageClient w.
Proof.
  unfold os_Mkdir. destruct (fs w !! p); [reflexivity|].
  destruct (os_Mkdir_fault env (trace w) p); reflexivity.
Qed.

(** A file on the disk stays a file through [os.MkdirAll] and [os.Create]. *)
Lemma os_MkdirAll_keeps_file p q w :
  fs w !! q = Some File -> fs (os_MkdirAll env p w).2 !! q = Some File.
Proof.
  intros Hq. unfold os_MkdirAll.
  destruct (fs w !! p) as [[]|] eqn:Hp; simpl; try done.
  destruct (os_MkdirAll_fault env (trace w) p); simpl; try done.
  rewrite lookup_insert_ne; [done|]. intros ->. congruence.
Qed.

Lemma os_Create_keeps_file p q w :
  fs w !! q = Some File -> fs (os_Create env p w).2 !! q = Some File.
Proof.
  intros Hq. unfold os_Create.
  destruct (fs w !! p) as [[]|] eqn:Hp; simpl; try done;
    destruct (os_Create_fault env (trace w) p); simpl; try done;
    (destruct (decide (p = q)) as [->|];
      [by rewrite lookup_insert_eq | by rewrite lookup_insert_ne]).
Qed.

Lemma os_Create_ok p w w' :
  os_Create env p w = (None, w') -> fs w' !! p = Some File.
Proof.
  unfold os_Create.
  destruct (fs w !! p) as [[]|]; try discriminate;
    destruct (os_Create_fault env (trace w) p); try discriminate;
    intros [= <-]; simpl; by rewrite lookup_insert_eq.
Qed.

End Calls.

(** ** The error package *)

(** C10. For every error [e] and string [s], [New e s] is a non-nil
    error whose dynamic value is an [err] with cause [e] and extra [s];
    the [Unwrap] method of that value, and [errors.Unwrap] on the
    interface value, give back exactly [e]. *)
Theorem New_Unwrap_left_inverse (e : error) (s : string) :
  New e s <> None
  /\ (exists w : err,
        New e s = Some (WorkerError w) /\ Unwrap w = e /\ Extra w = s)
  /\ errors_Unwrap (New e s) = e.
Proof.
  split; [discriminate|]. split; [|reflexivity].
  exists (mk_err e s). repeat split.
Qed.

(** ** The clone stage *)




(** ** The workspace *)

Lemma makeWorkingDir_exists (env : Env) (d : Data) (w : World) :
  is_Some (fs w !! localWorkingDir d) ->
  makeWorkingDir env d w
  = (Some (EEXIST "mkdir" (localWorkingDir d)), emit (EvMkdir (localWorkingDir d)) w).
Proof.
  intros [n Hn]. unfold makeWorkingDir, os_Mkdir. by rewrite Hn.
Qed.

Lemma makeWorkingDir_created (env : Env) (d : Data) (w w1 : World) :
  makeWorkingDir env d w = (None, w1) -> fs w1 !! localWorkingDir d = Some Dir.
Proof.
  unfold makeWorkingDir, os_Mkdir.
  destruct (fs w !! localWorkingDir d); [discriminate|].
  destruct (os_Mkdir_fault env (trace w) (localWorkingDir d)); [discriminate|].
  intros [= <-]. simpl. by rewrite lookup_insert_eq.
Qed.

(** C7. Whenever [/tmp/<user_id>] exists, creating the workspace fails
    with the "file exists" path error and leaves the disk as it was; the
    job stops there: [process] returns that error wrapped as
    makeWorkingDir and makes no call but the creation and the deferred
    removal.  This is the case for a second job of the same user that
    starts right after the first job created its workspace. *)
Theorem makeWorkingDir_refuses_existing (env : Env) (d : Data) (w : World) :
  let dir := "/tmp/" +:+ UserID d in
  (is_Some (fs w !! dir) \/
   exists (d1 : Data) (w0 : World),
     UserID d1 = UserID d /\ makeWorkingDir env d1 w0 = (None, w)) ->
  (makeWorkingDir env d w).1 = Some (EEXIST "mkdir" dir)
  /\ fs (makeWorkingDir env d w).2 = fs w
  /\ (process env d w).1
     = Returned (New (Some (EEXIST "mkdir" dir)) "makeWorkingDir")
  /\ emits w (process env d w).2 [EvMkdir dir; EvRemoveAll dir].
Proof.
  cbv zeta. intros H.
  assert (Hex : is_Some (fs w !! localWorkingDir d)).
  { destruct H as [H | (d1 & w0 & Hu & Hm)]; [exact H|].
    apply makeWorkingDir_created in Hm.
    unfold localWorkingDir in *. rewrite <- Hu. eauto. }
  pose proof (makeWorkingDir_exists env d w Hex) as Hm.
  unfold process, process_body. rewrite Hm. simpl.
  repeat split.
  unfold cleanup, emits.
  rewrite (os_RemoveAll_emits env (localWorkingDir d) (emit _ w)). simpl.
  by rewrite <- app_assoc.
Qed.

(** C7, at a concrete input: the job of user u1 when [/tmp/u1] is there. *)
Lemma makeWorkingDir_refuses_existing_witness :
  let w := with_fs (<["/tmp/u1" := Dir]> (fs warm)) warm in
  (makeWorkingDir calm_env job_u1 w).1 = Some (EEXIST "mkdir" "/tmp/u1")
  /\ fs (makeWorkingDir calm_env job_u1 w).2 = fs w
  /\ (process calm_env job_u1 w).1
     = Returned (New (Some (EEXIST "mkdir" "/tmp/u1")) "makeWorkingDir")
  /\ emits w (process calm_env job_u1 w).2 [EvMkdir "/tmp/u1"; EvRemoveAll "/tmp/u1"].
Proof.
  cbv zeta.
  apply (makeWorkingDir_refuses_existing calm_env job_u1
           (with_fs (<["/tmp/u1" := Dir]> (fs warm)) warm)).
  left. vm_compute. eauto.
Defined.

(** ** Jobs are taken as they are decoded *)

Lemma once_Do_done {L : Type} (f : L * World -> L * World) (l : L) (w : World) :
  once_done w = true -> once_Do f (l, w) = (l, w).
Proof. unfold once_Do. simpl. by intros ->. Qed.

(** Once the initialisation has been attempted, [Run] hands whatever the
    payload decodes to straight to [process]. *)
Lemma Run_after_once (env : Env) (m : PubSubMessage) (d : Data) (w : World) :
  once_done w = true ->
  json_Unmarshal env (payload m) = inl d ->
  (Run env m w).1 = (process env d w).1
  /\ exists logs, emits (process env d w).2 (Run env m w).2 logs
                  /\ Forall (fun e => event_stage e = None /\ is_RemoveAll e = false) logs.
Proof.
  intros Hdone Hdec. unfold Run. rewrite Hdec, once_Do_done by done.
  destruct (process env d w) as [[[e|]|] w2]; simpl; split; try done.
  - eexists. split; [apply emits_emit|]. by repeat constructor.
  - exists []. split; [apply emits_refl | constructor].
  - exists []. split; [apply emits_refl | constructor].
Qed.


(** ** Materialisation *)

Section Materialise.
Context (env : Env) (d : Data).

Lemma emit_list_nil w : emit_list [] w = w.
Proof. destruct w. unfold emit_list. simpl. by rewrite app_nil_r. Qed.

Lemma emit_emit_list e evs w : emit_list evs (emit e w) = emit_list (e :: evs) w.
Proof. unfold emit_list, emit. simpl. by rewrite <- app_assoc. Qed.

Lemma emit_list_emits evs w : emits w (emit_list evs w) evs.
Proof. reflexivity. Qed.


(** The first loop: one [it.Next] per name and one more for the end or
    the error; the names kept are those that do not end in a slash, in
    the order they come. *)
Lemma drain_listing items files w :
  drain env items files w
  = let '(names, err) := listing items in
    let nexts := replicate (S (length names)) EvNext in
    match err with
    | Some e => (inl e, emit_list (nexts ++ [listing_log env e]) w)
    | None =>
        (inr (files ++ filter (fun n => HasSuffix n "/" = false) names),
         emit_list nexts w)
    end.
Proof.
  revert files w. induction items as [|[name|e] rest IH]; intros files w; simpl.
  - by rewrite app_nil_r.
  - rewrite IH. destruct (listing rest) as [names [e|]]; simpl.
    + by rewrite emit_emit_list.
    + rewrite emit_emit_list. f_equal. f_equal.
      rewrite filter_cons. destruct (HasSuffix name "/") eqn:Hs; simpl.
      * reflexivity.
      * by rewrite <- app_assoc.
  - f_equal. unfold log_Error, listing_log, emit_list, emit. simpl.
    by rewrite <- app_assoc.
Qed.

(** One object: the reader is asked for first, every call is part of the
    copy, and nothing is taken from the disk. *)
Lemma write_one_emits bucket object w :
  exists evs,
    emits w (_writeContentFromStorageToFile env d bucket object w).2
          (EvNewReader bucket object :: evs)
    /\ Forall (fun e => is_copy_event e = true) evs
    /\ opened evs = [].
Proof.
  unfold _writeContentFromStorageToFile.
  destruct (object_NewReader env (trace w) bucket object).
  { exists []. by repeat split. }
  set (w1 := emit (EvNewReader bucket object) w).
  pose proof (os_MkdirAll_emits env ("/tmp/" +:+ path_Dir env object) w1) as H2.
  destruct (os_MkdirAll env ("/tmp/" +:+ path_Dir env object) w1) as [[e2|] w2];
    simpl in *.
  { eexists [_; _]. unfold emits in *. simpl. rewrite H2. subst w1. simpl.
    rewrite <- !app_assoc. by repeat split; repeat constructor. }
  pose proof (os_Create_emits env ("/tmp/" +:+ object) w2) as H3.
  destruct (os_Create env ("/tmp/" +:+ object) w2) as [[e3|] w3]; simpl in *.
  { eexists [_; _; _]. unfold emits in *. simpl. rewrite H3, H2. subst w1. simpl.
    rewrite <- !app_assoc. by repeat split; repeat constructor. }
  eexists [_; _; _; _; _]. unfold emits in *. simpl. rewrite H3, H2. subst w1. simpl.
  rewrite <- !app_assoc. by repeat split; repeat constructor.
Qed.

Lemma write_one_keeps_file bucket object q w :
  fs w !! q = Some File ->
  fs (_writeContentFromStorageToFile env d bucket object w).2 !! q = Some File.
Proof.
  intros Hq. unfold _writeContentFromStorageToFile.
  destruct (object_NewReader env (trace w) bucket object); [done|].
  set (w1 := emit (EvNewReader bucket object) w).
  assert (H1 : fs w1 !! q = Some File) by done.
  pose proof (os_MkdirAll_keeps_file env ("/tmp/" +:+ path_Dir env object) q w1 H1) as H2.
  destruct (os_MkdirAll env ("/tmp/" +:+ path_Dir env object) w1) as [[e2|] w2];
    simpl in *; [done|].
  pose proof (os_Create_keeps_file env ("/tmp/" +:+ object) q w2 H2) as H3.
  by destruct (os_Create env ("/tmp/" +:+ object) w2) as [[e3|] w3].
Qed.

(** A copy that succeeds leaves the file [/tmp/<key>]. *)
Lemma write_one_ok bucket object w w' :
  _writeContentFromStorageToFile env d bucket object w = (None, w') ->
  fs w' !! ("/tmp/" +:+ object) = Some File.
Proof.
  unfold _writeContentFromStorageToFile.
  destruct (object_NewReader env (trace w) bucket object); [discriminate|].
  destruct (os_MkdirAll env _ _) as [[e2|] w2]; [discriminate|].
  destruct (os_Create env ("/tmp/" +:+ object) w2) as [[e3|] w3] eqn:Hc;
    [discriminate|].
  apply os_Create_ok in Hc. intros [= _ <-]. exact Hc.
Qed.

Lemma opened_app a b : opened (a ++ b) = opened a ++ opened b.
Proof. unfold opened. apply omap_app. Qed.

(** The second loop opens the files in the order of the list and stops
    at the first that fails. *)
Lemma write_files_emits bucket files w :
  exists evs,
    emits w (write_files env d bucket files w).2 evs
    /\ Forall (fun e => is_copy_event e = true) evs
    /\ (((write_files env d bucket files w).1 = None /\ opened evs = files)
        \/ exists e l1 k l2,
             (write_files env d bucket files w).1 = Some e
             /\ files = l1 ++ k :: l2 /\ opened evs = l1 ++ [k]).
Proof.
  revert w. induction files as [|file rest IH]; intros w; simpl.
  { exists []. split; [apply emits_refl|]. split; [constructor|]. by left. }
  destruct (write_one_emits bucket file w) as (ev1 & Hem1 & Hc1 & Ho1).
  destruct (_writeContentFromStorageToFile env d bucket file w) as [[e|] w1];
    simpl in *.
  - exists (EvNewReader bucket file :: ev1). split; [done|].
    split; [by constructor|]. right. exists e, [], file, rest.
    simpl. by rewrite Ho1.
  - destruct (IH w1) as (ev2 & Hem2 & Hc2 & Hcase).
    exists ((EvNewReader bucket file :: ev1) ++ ev2).
    split; [by eapply emits_trans|].
    split; [apply Forall_app; split; [by constructor | done]|].
    assert (Hop : opened ((EvNewReader bucket file :: ev1) ++ ev2)
                  = file :: opened ev2).
    { rewrite opened_app. change (opened (EvNewReader bucket file :: ev1))
        with (file :: opened ev1). by rewrite Ho1. }
    rewrite Hop.
    destruct Hcase as [[Hn Ho] | (e & l1 & k & l2 & He & Hf & Ho)].
    + left. by rewrite Ho.
    + right. exists e, (file :: l1), k, l2. rewrite Ho. subst rest. by repeat split.
Qed.

Lemma write_files_keeps_file bucket files q w :
  fs w !! q = Some File ->
  fs (write_files env d bucket files w).2 !! q = Some File.
Proof.
  revert w. induction files as [|file rest IH]; intros w Hq; simpl; [done|].
  pose proof (write_one_keeps_file bucket file q w Hq) as H1.
  destruct (_writeContentFromStorageToFile env d bucket file w) as [[e|] w1];
    simpl in *; [done|]. by apply IH.
Qed.

(** No rollback: after the files of a list were all copied, each of them
    is on the disk. *)
Lemma write_files_ok bucket files w w' :
  write_files env d bucket files w = (None, w') ->
  forall x, x ∈ files -> fs w' !! ("/tmp/" +:+ x) = Some File.
Proof.
  revert w. induction files as [|file rest IH]; intros w Hw x Hx.
  { by apply elem_of_nil in Hx. }
  simpl in Hw.
  destruct (_writeContentFromStorageToFile env d bucket file w) as [[e|] w1] eqn:H1;
    [discriminate|].
  apply elem_of_cons in Hx as [-> | Hx].
  - apply write_one_ok in H1.
    pose proof (write_files_keeps_file bucket rest _ w1 H1) as Hk.
    by rewrite Hw in Hk.
  - by eapply IH.
Qed.

Lemma write_files_fails_at bucket l1 k l2 w w1 w2 e :
  write_files env d bucket l1 w = (None, w1) ->
  _writeContentFromStorageToFile env d bucket k w1 = (Some e, w2) ->
  write_files env d bucket (l1 ++ k :: l2) w = (Some e, w2).
Proof.
  revert w. induction l1 as [|file rest IH]; intros w Hl Hk; simpl in *.
  - injection Hl as ->. by rewrite Hk.
  - destruct (_writeContentFromStorageToFile env d bucket file w) as [[e'|] w'];
      [discriminate|]. by apply IH.
Qed.

End Materialise.



(** ** The stages in the trace *)

Lemma of_stage_omap s evs :
  Forall (of_stage s) evs ->
  omap event_stage evs = replicate (length (omap event_stage evs)) s.
Proof.
  induction 1 as [|e evs [He | [m ->]] _ IH]; simpl; [done| |done].
  rewrite He. simpl. by f_equal.
Qed.

Lemma of_stage_not_RemoveAll s evs :
  Forall (of_stage s) evs -> Forall (fun e => is_RemoveAll e = false) evs.
Proof.
  intros H. eapply Forall_impl; [exact H|].
  intros e [He | [m ->]]; [|done]. by destruct e.
Qed.

Lemma of_stage_not_publish s evs :
  is_publish_stage s = false ->
  Forall (of_stage s) evs -> Forall (fun e => is_publish_event e = false) evs.
Proof.
  intros Hs H. eapply Forall_impl; [exact H|]. intros e [He | [m ->]]; [|done].
  unfold is_publish_event. by rewrite He.
Qed.

Lemma copy_event_of_stage evs :
  Forall (fun e => is_copy_event e = true) evs -> Forall (of_stage StWrite) evs.
Proof.
  intros H. eapply Forall_impl; [exact H|]. intros e He. left. by destruct e.
Qed.

Lemma collapse_block n s l :
  match l with [] => True | s' :: _ => s <> s' end ->
  collapse (replicate (S n) s ++ l) = s :: collapse l.
Proof.
  intros Hl. induction n as [|n IH].
  - simpl. destruct l as [|s' l]; [done|]. by case_decide.
  - change (replicate (S (S n)) s ++ l) with (s :: (replicate (S n) s ++ l)).
    change (collapse (s :: (replicate (S n) s ++ l)))
      with (if decide (s = s) then collapse (replicate (S n) s ++ l)
            else s :: collapse (replicate (S n) s ++ l)).
    by case_decide.
Qed.

Lemma block_intro s e evs :
  event_stage e = Some s -> Forall (of_stage s) evs -> block s (e :: evs).
Proof.
  intros He Hall. split; [constructor; [by left | done]|].
  exists (length (omap event_stage evs)). simpl. rewrite He. simpl.
  f_equal. by apply of_stage_omap.
Qed.

Section Stages.
Context (env : Env) (d : Data).

Lemma makeWorkingDir_block w :
  emits w (makeWorkingDir env d w).2 [EvMkdir (localWorkingDir d)]
  /\ block StMakeWorkingDir [EvMkdir (localWorkingDir d)].
Proof.
  split; [apply os_Mkdir_emits|]. by apply block_intro.
Qed.

Lemma cloneGithubRepo_block w :
  exists evs, emits w (cloneGithubRepo env d w).2 evs /\ block StClone evs.
Proof.
  exists [EvExec (localWorkingDir d) "git" ["clone"; cloneURL d]].
  split; [|by apply block_intro].
  unfold cloneGithubRepo, run_Output. simpl. by destruct (ExitErr _).
Qed.

Lemma makeGitCommit_block w :
  exists evs, emits w (makeGitCommit env d w).2 evs /\ block StCommit evs.
Proof.
  unfold makeGitCommit, run_Output. simpl.
  destruct (ExitErr _); simpl.
  { eexists [_]. split; [reflexivity|]. by apply block_intro. }
  destruct (ExitErr _); simpl;
    (eexists [_; _]; split; [unfold emits; simpl; by rewrite <- app_assoc|];
     apply block_intro; [done|]; constructor; [by left | done]).
Qed.

Lemma pushToRemote_block w :
  exists evs, emits w (pushToRemote env d w).2 evs /\ block StPush evs.
Proof.
  exists [EvExec (localRepoPath d) "git" ["push"; "-u"; "origin"; "HEAD"]].
  split; [|by apply block_intro].
  unfold pushToRemote, run_Output. simpl. by destruct (ExitErr _).
Qed.

Lemma writeContentFromStorageToFile_block w :
  match (writeContentFromStorageToFile env d w).1 with
  | Panicked => (writeContentFromStorageToFile env d w).2 = w
  | Returned _ =>
      exists evs,
        emits w (writeContentFromStorageToFile env d w).2 evs /\ block StWrite evs
  end.
Proof.
  unfold writeContentFromStorageToFile.
  destruct (storageClient w); [|done].
  rewrite drain_listing. destruct (listing _) as [names [e|]]; simpl.
  - rewrite emit_emit_list. eexists. split; [apply emit_list_emits|].
    apply block_intro; [done|].
    constructor; [by left|]. apply Forall_app. split.
    + apply Forall_forall. intros x Hx. apply elem_of_replicate in Hx as [-> _].
      by left.
    + constructor; [|done]. right. by eexists.
  - rewrite emit_emit_list. set (w2 := emit_list _ w).
    destruct (write_files_emits env d (bucketName env)
                (filter (fun n => HasSuffix n "/" = false) names) w2)
      as (copies & Hem & Hall & _).
    destruct (write_files env d (bucketName env) _ w2) as [err w3]; simpl in *.
    eexists. split.
    { eapply (emits_trans w w2 w3); [apply emit_list_emits | exact Hem]. }
    simpl. apply block_intro; [done|].
    constructor; [by left|]. apply Forall_app. split.
    + apply Forall_forall. intros x Hx. apply elem_of_replicate in Hx as [-> _].
      by left.
    + by apply copy_event_of_stage.
Qed.

End Stages.

Lemma collapse_replicate n s : collapse (replicate (S n) s) = [s].
Proof.
  rewrite <- (app_nil_r (replicate (S n) s)). by rewrite collapse_block.
Qed.

Lemma block_omap_head s evs rest :
  block s evs -> exists l, omap event_stage (evs ++ rest) = s :: l.
Proof.
  intros [_ [n Hn]]. rewrite omap_app, Hn. simpl. by eexists.
Qed.

Lemma stages_of_block s evs : block s evs -> stages_of evs = [s].
Proof.
  intros [_ [n Hn]]. unfold stages_of. rewrite Hn. apply collapse_replicate.
Qed.

Lemma stages_of_block_app s evs rest :
  block s evs ->
  match omap event_stage rest with [] => True | s' :: _ => s <> s' end ->
  stages_of (evs ++ rest) = s :: stages_of rest.
Proof.
  intros [_ [n Hn]] Hrest. unfold stages_of. rewrite omap_app, Hn.
  by apply collapse_block.
Qed.

Lemma block_within (ran : list Stage) s evs :
  s ∈ ran -> block s evs ->
  Forall (fun e => exists s', s' ∈ ran /\ of_stage s' e) evs.
Proof.
  intros Hs [Hall _]. eapply Forall_impl; [exact Hall|]. naive_solver.
Qed.

(** What links [process_body] to the transition rule and to the trace:
    the stages run are a prefix of the fixed order, every call made is a
    call of one of them, and the trace shows them in that order. *)
Lemma process_body_trace (env : Env) (d : Data) (w : World) :
  exists evs ran,
    run_stages (pipeline env d) w = (process_body env d w, ran)
    /\ emits w (process_body env d w).2 evs
    /\ Forall (fun e => exists s, s ∈ ran /\ of_stage s e) evs
    /\ ran `prefix_of` all_stages
    /\ (exists rest, evs = EvMkdir (localWorkingDir d) :: rest)
    /\ ((process_body env d w).1 <> Panicked -> stages_of evs = ran).
Proof.
  unfold process_body, pipeline, run_stages, returning.
  destruct (makeWorkingDir_block env d w) as [Hem1 Hb1].
  set (ev1 := [EvMkdir (localWorkingDir d)]) in *.
  destruct (makeWorkingDir env d w) as [[e1|] w1]; simpl in *.
  { exists ev1, [StMakeWorkingDir]. split; [done|]. split; [done|].
    split; [eapply block_within; [|done]; set_solver|].
    split; [by eexists|]. split; [by eexists|]. intros _. by apply stages_of_block. }
  destruct (cloneGithubRepo_block env d w1) as (ev2 & Hem2 & Hb2).
  destruct (cloneGithubRepo env d w1) as [[e2|] w2]; simpl in *.
  { exists (ev1 ++ ev2), [StMakeWorkingDir; StClone]. split; [done|].
    split; [by eapply emits_trans|].
    split; [apply Forall_app; split; (eapply block_within; [|done]; set_solver)|].
    split; [by eexists|]. split; [by eexists|]. intros _.
    rewrite (stages_of_block_app _ _ _ Hb1), (stages_of_block _ _ Hb2); [done|].
    destruct Hb2 as [_ [n ->]]. done. }
  pose proof (writeContentFromStorageToFile_block env d w2) as H3.
  destruct (writeContentFromStorageToFile env d w2) as [[[e3|]|] w3]; simpl in *.
  - destruct H3 as (ev3 & Hem3 & Hb3).
    exists (ev1 ++ ev2 ++ ev3), [StMakeWorkingDir; StClone; StWrite].
    split; [done|].
    split; [eapply emits_trans; [done|]; by eapply emits_trans|].
    split; [rewrite !Forall_app; repeat split;
            (eapply block_within; [|done]; set_solver)|].
    split; [by eexists|]. split; [by eexists|]. intros _.
    rewrite (stages_of_block_app _ _ _ Hb1).
    2:{ destruct (block_omap_head _ _ ev3 Hb2) as [l ->]. done. }
    rewrite (stages_of_block_app _ _ _ Hb2), (stages_of_block _ _ Hb3); [done|].
    destruct Hb3 as [_ [n ->]]. done.
  - destruct H3 as (ev3 & Hem3 & Hb3).
    destruct (makeGitCommit_block env d w3) as (ev4 & Hem4 & Hb4).
    destruct (makeGitCommit env d w3) as [[e4|] w4]; simpl in *.
    { exists (ev1 ++ ev2 ++ ev3 ++ ev4), [StMakeWorkingDir; StClone; StWrite; StCommit].
      split; [done|].
      split; [repeat (eapply emits_trans; [done|]); done|].
      split; [rewrite !Forall_app; repeat split;
              (eapply block_within; [|done]; set_solver)|].
      split; [by eexists|]. split; [by eexists|]. intros _.
      rewrite (stages_of_block_app _ _ _ Hb1).
      2:{ destruct (block_omap_head _ _ (ev3 ++ ev4) Hb2) as [l ->]. done. }
      rewrite (stages_of_block_app _ _ _ Hb2).
      2:{ destruct (block_omap_head _ _ ev4 Hb3) as [l ->]. done. }
      rewrite (stages_of_block_app _ _ _ Hb3), (stages_of_block _ _ Hb4); [done|].
      destruct Hb4 as [_ [n ->]]. done. }
    destruct (pushToRemote_block env d w4) as (ev5 & Hem5 & Hb5).
    exists (ev1 ++ ev2 ++ ev3 ++ ev4 ++ ev5), all_stages.
    assert (Hem : emits w (pushToRemote env d w4).2 (ev1 ++ ev2 ++ ev3 ++ ev4 ++ ev5)).
    { repeat (eapply emits_trans; [done|]); done. }
    assert (Hst : stages_of (ev1 ++ ev2 ++ ev3 ++ ev4 ++ ev5) = all_stages).
    { rewrite (stages_of_block_app _ _ _ Hb1).
      2:{ destruct (block_omap_head _ _ (ev3 ++ ev4 ++ ev5) Hb2) as [l ->]. done. }
      rewrite (stages_of_block_app _ _ _ Hb2).
      2:{ destruct (block_omap_head _ _ (ev4 ++ ev5) Hb3) as [l ->]. done. }
      rewrite (stages_of_block_app _ _ _ Hb3).
      2:{ destruct (block_omap_head _ _ ev5 Hb4) as [l ->]. done. }
      rewrite (stages_of_block_app _ _ _ Hb4), (stages_of_block _ _ Hb5); [done|].
      destruct Hb5 as [_ [n ->]]. done. }
    assert (Hin : Forall (fun e => exists s, s ∈ all_stages /\ of_stage s e)
                         (ev1 ++ ev2 ++ ev3 ++ ev4 ++ ev5)).
    { rewrite !Forall_app; repeat split;
        (eapply block_within; [|done]; unfold all_stages; set_solver). }
    assert (Hhd : exists rest, ev1 ++ ev2 ++ ev3 ++ ev4 ++ ev5
                               = EvMkdir (localWorkingDir d) :: rest)
      by by eexists.
    destruct (pushToRemote env d w4) as [[e5|] w5]; simpl in *; by repeat split.
  - exists (ev1 ++ ev2), [StMakeWorkingDir; StClone; StWrite]. subst w3.
    split; [done|]. split; [by eapply emits_trans|].
    split; [apply Forall_app; split; (eapply block_within; [|done]; set_solver)|].
    split; [by eexists|]. split; [by eexists|]. done.
Qed.

(** ** The transition rule *)

Lemma run_stages_ok stages w w' ran :
  run_stages stages w = (Returned None, w', ran) -> ran = stages.*1.
Proof.
  revert w ran. induction stages as [|[st f] rest IH]; intros w ran; simpl.
  { by intros [= _ <-]. }
  destruct (f w) as [[[cause|]|] w1]; try discriminate.
  destruct (run_stages rest w1) as [[o w2] ran'] eqn:Hr.
  intros [= -> -> <-]. f_equal. by eapply IH.
Qed.

(** A run that ends in an error ran a prefix of the stages: those before
    the last all returned nil, the last returned the cause, the result is
    the cause under the name of that stage, and the world is the one that
    stage left. *)
Lemma run_stages_error stages w e w' ran :
  run_stages stages w = (Returned (Some e), w', ran) ->
  exists pre st f post w0 cause,
    stages = pre ++ (st, f) :: post
    /\ ran = pre.*1 ++ [st]
    /\ run_stages pre w = (Returned None, w0, pre.*1)
    /\ f w0 = (Returned (Some cause), w')
    /\ e = WorkerError (mk_err (Some cause) (stage_name st)).
Proof.
  revert w ran. induction stages as [|[st f] rest IH]; intros w ran; simpl.
  { discriminate. }
  destruct (f w) as [[[cause|]|] w1] eqn:Hf; try discriminate.
  - intros [= <- <- <-]. by exists [], st, f, rest, w, cause.
  - destruct (run_stages rest w1) as [[o w2] ran'] eqn:Hr.
    intros [= -> -> <-].
    destruct (IH _ _ Hr) as (pre & st' & f' & post & w0 & cause & -> & -> & Hp & Hf' & ->).
    exists ((st, f) :: pre), st', f', post, w0, cause.
    simpl. rewrite Hf, Hp. by repeat split.
Qed.

(** C3. [process] follows the transition rule over the five stages in
    the order makeWorkingDir, cloneGithubRepo,
    writeContentFromStorageToFile, makeGitCommit, pushToRemote: the stages
    run are a prefix of that order, and the calls in the trace belong to
    these stages in this order.  When the result is nil all five ran.
    When it is an error, every stage before the last one run returned
    nil, the last returned a cause, the result is that cause wrapped with
    the name of that stage, and the state is the one that stage left:
    no later stage did anything. *)
Theorem process_runs_stages_in_order (env : Env) (d : Data) (w : World) :
  (pipeline env d).*1 = all_stages
  /\ (process env d w).1 = (process_body env d w).1
  /\ exists evs ran,
       run_stages (pipeline env d) w = (process_body env d w, ran)
       /\ ran `prefix_of` all_stages
       /\ emits w (process_body env d w).2 evs
       /\ ((process_body env d w).1 <> Panicked -> stages_of evs = ran)
       /\ match (process_body env d w).1 with
          | Returned None => ran = all_stages
          | Returned (Some e) =>
              exists pre st f post w0 cause,
                pipeline env d = pre ++ (st, f) :: post
                /\ ran = pre.*1 ++ [st]
                /\ run_stages pre w = (Returned None, w0, pre.*1)
                /\ f w0 = (Returned (Some cause), (process_body env d w).2)
                /\ e = WorkerError (mk_err (Some cause) (stage_name st))
          | Panicked => True
          end.
Proof.
  split; [reflexivity|]. split.
  { unfold process. by destruct (process_body env d w). }
  destruct (process_body_trace env d w) as (evs & ran & Hrun & Hem & _ & Hpre & _ & Hst).
  exists evs, ran. repeat (split; [done|]).
  destruct (process_body env d w) as [[[e|]|] w'] eqn:Hb; simpl; [| |done].
  - by apply run_stages_error in Hrun.
  - by apply run_stages_ok in Hrun.
Qed.

(** ** Cleanup *)

Section Cleanup.
Context (env : Env) (d : Data) (f : list Event -> string -> error).

Lemma drain_ignores_RemoveAll_fault items files w :
  drain (with_RemoveAll_fault f env) items files w = drain env items files w.
Proof.
  revert files w. induction items as [|[name|e] rest IH]; intros files w; simpl;
    [done | apply IH | done].
Qed.

Lemma write_files_ignores_RemoveAll_fault bucket files w :
  write_files (with_RemoveAll_fault f env) d bucket files w
  = write_files env d bucket files w.
Proof.
  revert w. induction files as [|file rest IH]; intros w; simpl; [done|].
  change (_writeContentFromStorageToFile (with_RemoveAll_fault f env) d bucket file w)
    with (_writeContentFromStorageToFile env d bucket file w).
  destruct (_writeContentFromStorageToFile env d bucket file w) as [[e|] w1];
    [done | apply IH].
Qed.

Lemma writeContentFromStorageToFile_ignores_RemoveAll_fault w :
  writeContentFromStorageToFile (with_RemoveAll_fault f env) d w
  = writeContentFromStorageToFile env d w.
Proof.
  unfold writeContentFromStorageToFile. destruct (storageClient w); [|done].
  simpl. rewrite drain_ignores_RemoveAll_fault.
  destruct (drain env _ _ _) as [[e|files] w2]; [done|].
  by rewrite write_files_ignores_RemoveAll_fault.
Qed.

(** The stages never ask how a removal would end. *)
Lemma process_body_ignores_RemoveAll_fault w :
  process_body (with_RemoveAll_fault f env) d w = process_body env d w.
Proof.
  unfold process_body.
  change (makeWorkingDir (with_RemoveAll_fault f env) d w)
    with (makeWorkingDir env d w).
  destruct (makeWorkingDir env d w) as [[e1|] w1]; [done|].
  change (cloneGithubRepo (with_RemoveAll_fault f env) d w1)
    with (cloneGithubRepo env d w1).
  destruct (cloneGithubRepo env d w1) as [[e2|] w2]; [done|].
  rewrite writeContentFromStorageToFile_ignores_RemoveAll_fault.
  destruct (writeContentFromStorageToFile env d w2) as [[[e3|]|] w3]; try done.
Qed.

End Cleanup.

Lemma under_self path : under path path = true.
Proof. unfold under. by rewrite String.eqb_refl. Qed.

(** C1, as amended. Whatever the stages do and however they end,
    [process] calls the recursive removal of [/tmp/<user_id>] exactly
    once, as its last call; the result of [process] is the result of the
    stages, whatever the removal answers; and when the removal reports no
    error, neither the workspace directory nor anything below it exists
    afterwards. *)
Theorem process_cleans_up_once (env : Env) (d : Data) (w : World) :
  let dir := "/tmp/" +:+ UserID d in
  exists evs,
    emits w (process_body env d w).2 evs
    /\ emits w (process env d w).2 (evs ++ [EvRemoveAll dir])
    /\ Forall (fun e => is_RemoveAll e = false) evs
    /\ (process env d w).1 = (process_body env d w).1
    /\ (forall f, (process (with_RemoveAll_fault f env) d w).1 = (process env d w).1)
    /\ (os_RemoveAll_fault env (trace w ++ evs) dir = None ->
        forall k, under dir k = true -> fs (process env d w).2 !! k = None).
Proof.
  cbv zeta.
  destruct (process_body_trace env d w) as (evs & ran & _ & Hem & Hin & _ & _ & _).
  exists evs. split; [done|].
  assert (Hno : Forall (fun e => is_RemoveAll e = false) evs).
  { eapply Forall_impl; [exact Hin|]. intros e (s & _ & [He | [m ->]]); [|done].
    by destruct e. }
  assert (Hres : forall f,
    (process (with_RemoveAll_fault f env) d w).1 = (process_body env d w).1).
  { intros f. unfold process. rewrite process_body_ignores_RemoveAll_fault.
    by destruct (process_body env d w). }
  assert (Hsame : (process env d w).1 = (process_body env d w).1).
  { unfold process. by destruct (process_body env d w). }
  unfold process in *. destruct (process_body env d w) as [o w1]; simpl in *.
  split.
  { eapply emits_trans; [exact Hem|]. apply os_RemoveAll_emits. }
  split; [done|]. split; [done|].
  split; [intros f; by rewrite Hres|].
  intros Hok k Hk. unfold cleanup, os_RemoveAll, localWorkingDir.
  unfold emits in Hem. rewrite Hem, Hok. simpl.
  apply map_lookup_filter_None. right. intros n _. simpl. by rewrite Hk.
Qed.

(** C1, at a concrete input: the job of the example, where every call
    succeeds and the removal too. *)
Lemma process_cleans_up_once_witness :
  exists evs,
    emits warm (process calm_env job_u1 warm).2 (evs ++ [EvRemoveAll "/tmp/u1"])
    /\ Forall (fun e => is_RemoveAll e = false) evs
    /\ fs (process calm_env job_u1 warm).2 !! "/tmp/u1" = None.
Proof.
  destruct (process_cleans_up_once calm_env job_u1 warm)
    as (evs & _ & Hem & Hno & _ & _ & Hgone).
  exists evs. split; [exact Hem|]. split; [exact Hno|].
  apply Hgone; reflexivity.
Defined.

(** C1, counterexample. The job of the example runs through all its
    stages and [process] returns nil, but the removal of the workspace
    fails and its error is dropped: [/tmp/u1] is still there. *)
Lemma workspace_survives_failed_removal :
  ~ workspace_gone_after_process removal_fails_env job_u1 warm.
Proof.
  intros H. specialize (H None eq_refl). vm_compute in H. discriminate.
Qed.

(** ** A copy that fails *)

(** C5. A job whose workspace was created and whose repository was
    cloned lists its objects; the files to copy are [l1 ++ k :: l2].  If
    the files of [l1] are copied and copying [k] then fails with [e],
    the stage returns [e] at once, every file of [l1] is on the disk as
    [/tmp/<key>] when the stage returns, [process] returns [e] wrapped as
    writeContentFromStorageToFile, and no call of the job is a sub-step
    of the commit or push stages. *)
Theorem failed_copy_keeps_earlier_files_and_stops
    (env : Env) (d : Data) (w0 w1 w2 w4 w5 : World) (c : Client)
    (names l1 l2 : list string) (k : string) (e : error_value) :
  let bucket := bucketName env in
  makeWorkingDir env d w0 = (None, w1) ->
  cloneGithubRepo env d w1 = (None, w2) ->
  storageClient w2 = Some c ->
  listing (bucket_Objects env (trace w2) bucket (UserID d)) = (names, None) ->
  filter (fun n => HasSuffix n "/" = false) names = l1 ++ k :: l2 ->
  write_files env d bucket l1
    (emit_list (EvObjects bucket (UserID d) :: replicate (S (length names)) EvNext) w2)
  = (None, w4) ->
  _writeContentFromStorageToFile env d bucket k w4 = (Some e, w5) ->
  writeContentFromStorageToFile env d w2 = (Returned (Some e), w5)
  /\ (forall x, x ∈ l1 -> fs w5 !! ("/tmp/" +:+ x) = Some File)
  /\ (process env d w0).1
     = Returned (New (Some e) "writeContentFromStorageToFile")
  /\ exists evs,
       emits w0 (process env d w0).2 evs
       /\ Forall (fun ev => is_publish_event ev = false) evs.
Proof.
  cbv zeta. intros H1 H2 Hc Hl Hf Hw Hk.
  assert (H3 : writeContentFromStorageToFile env d w2 = (Returned (Some e), w5)).
  { unfold writeContentFromStorageToFile. rewrite Hc, drain_listing, Hl.
    cbv beta iota zeta. rewrite emit_emit_list, app_nil_l, Hf.
    by rewrite (write_files_fails_at env d _ l1 k l2 _ w4 w5 e Hw Hk). }
  split; [exact H3|]. split.
  { intros x Hx.
    pose proof (write_files_ok env d _ l1 _ w4 Hw x Hx) as Hx4.
    pose proof (write_one_keeps_file env d (bucketName env) k _ w4 Hx4) as Hx5.
    by rewrite Hk in Hx5. }
  destruct (makeWorkingDir_block env d w0) as (Hem1 & [Hb1 _]).
  set (ev1 := [EvMkdir (localWorkingDir d)]) in *.
  destruct (cloneGithubRepo_block env d w1) as (ev2 & Hem2 & [Hb2 _]).
  pose proof (writeContentFromStorageToFile_block env d w2) as Hb3.
  rewrite H1 in Hem1. rewrite H2 in Hem2. rewrite H3 in Hb3. simpl in *.
  destruct Hb3 as (ev3 & Hem3 & [Hb3 _]).
  unfold process, process_body. rewrite H1, H2, H3. simpl. split; [done|].
  exists ((ev1 ++ ev2 ++ ev3) ++ [EvRemoveAll (localWorkingDir d)]). split.
  - eapply emits_trans; [|apply os_RemoveAll_emits].
    eapply emits_trans; [done|]. by eapply emits_trans.
  - rewrite !Forall_app. repeat split;
      try (eapply of_stage_not_publish; [|done]; done).
    by repeat constructor.
Qed.

(** C5, at a concrete input: two files are to be copied and the copy of
    the second fails. *)
Lemma failed_copy_keeps_earlier_files_and_stops_witness :
  fs (writeContentFromStorageToFile second_copy_fails_env job_u1
        (cloneGithubRepo second_copy_fails_env job_u1
           (makeWorkingDir second_copy_fails_env job_u1 warm).2).2).2
    !! "/tmp/u1/a.md" = Some File
  /\ (process second_copy_fails_env job_u1 warm).1
     = Returned (New (Some copy_failure) "writeContentFromStorageToFile")
  /\ exists evs,
       emits warm (process second_copy_fails_env job_u1 warm).2 evs
       /\ Forall (fun ev => is_publish_event ev = false) evs.
Proof.
  pose (env := second_copy_fails_env).
  pose (w1 := (makeWorkingDir env job_u1 warm).2).
  pose (w2 := (cloneGithubRepo env job_u1 w1).2).
  pose (w3 := emit_list (EvObjects "ide-bucket" "u1" :: replicate 4 EvNext) w2).
  pose (w4 := (write_files env job_u1 "ide-bucket" ["u1/a.md"] w3).2).
  pose (w5 := (_writeContentFromStorageToFile env job_u1 "ide-bucket" "u1/b.md" w4).2).
  destruct (failed_copy_keeps_earlier_files_and_stops
              env job_u1 warm w1 w2 w4 w5 TheClient
              ["u1/"; "u1/a.md"; "u1/b.md"] ["u1/a.md"] [] "u1/b.md" copy_failure)
    as (Hst & Hfiles & Hres & Hev); try (vm_compute; reflexivity).
  split; [|split; [exact Hres | exact Hev]].
  fold env w1 w2. rewrite Hst. simpl. apply Hfiles. apply list_elem_of_here.
Defined.

(** ** A job without a user *)

(** C9. A job whose user_id is the empty string is processed like any
    other: its workspace path is exactly [/tmp/]; the first call of
    [process] creates that path and its last call removes it
    recursively; with a storage client in place the listing is asked for
    the empty prefix; and [Run] hands such a job, once decoded, to
    [process] without a check. *)
Theorem empty_user_id_is_not_rejected (env : Env) (d : Data) (w : World) :
  UserID d = EmptyString ->
  localWorkingDir d = "/tmp/"
  /\ emits w (cleanup env d w) [EvRemoveAll "/tmp/"]
  /\ (exists evs,
        emits w (process env d w).2
              (EvMkdir "/tmp/" :: evs ++ [EvRemoveAll "/tmp/"]))
  /\ (forall c, storageClient w = Some c ->
        exists evs,
          emits w (writeContentFromStorageToFile env d w).2
                (EvObjects (bucketName env) EmptyString :: evs))
  /\ (forall m, once_done w = true ->
        json_Unmarshal env (payload m) = inl d ->
        (Run env m w).1 = (process env d w).1).
Proof.
  intros Hu.
  assert (Hdir : localWorkingDir d = "/tmp/").
  { unfold localWorkingDir. by rewrite Hu. }
  split; [exact Hdir|]. split.
  { unfold cleanup. rewrite Hdir. apply os_RemoveAll_emits. }
  split.
  { destruct (process_body_trace env d w) as (evs & ran & _ & Hem & _ & _ & [rest ->] & _).
    exists rest. unfold process.
    destruct (process_body env d w) as [o w1]. simpl in *.
    rewrite <- Hdir. eapply (emits_trans w w1 _ (_ :: rest)); [exact Hem|].
    apply os_RemoveAll_emits. }
  split.
  { intros c Hc. unfold writeContentFromStorageToFile. rewrite Hc, Hu.
    rewrite drain_listing.
    destruct (listing _) as [names [e|]].
    - cbv beta iota zeta. rewrite emit_emit_list. simpl. eexists. reflexivity.
    - cbv beta iota zeta. rewrite emit_emit_list.
      set (w2 := emit_list _ w).
      destruct (write_files_emits env d (bucketName env)
                  ([] ++ filter (fun n => HasSuffix n "/" = false) names) w2)
        as (copies & Hem & _).
      destruct (write_files env d (bucketName env) _ w2) as [err w3]. simpl in *.
      eexists. unfold emits in *. rewrite Hem. unfold w2. simpl.
      rewrite <- app_assoc. reflexivity. }
  intros m Hdone Hdec. by apply Run_after_once.
Qed.

(** C9, at a concrete input: the job of the example without its user. *)
Lemma empty_user_id_is_not_rejected_witness :
  localWorkingDir job_empty_user = "/tmp/"
  /\ emits warm (cleanup calm_env job_empty_user warm) [EvRemoveAll "/tmp/"]
  /\ exists evs,
       emits warm (process calm_env job_empty_user warm).2
             (EvMkdir "/tmp/" :: evs ++ [EvRemoveAll "/tmp/"]).
Proof.
  destruct (empty_user_id_is_not_rejected calm_env job_empty_user warm eq_refl)
    as (Hdir & Hclean & Hproc & _).
  exact (conj Hdir (conj Hclean Hproc)).
Defined.

(** ** Initialisation that fails *)

Lemma process_first_and_last_call (env : Env) (d : Data) (w : World) :
  exists evs,
    emits w (process env d w).2
          (EvMkdir (localWorkingDir d) :: evs ++ [EvRemoveAll (localWorkingDir d)]).
Proof.
  destruct (process_body_trace env d w) as (evs & ran & _ & Hem & _ & _ & [rest ->] & _).
  exists rest. unfold process.
  destruct (process_body env d w) as [o w1]. simpl in *.
  eapply (emits_trans w w1 _ (_ :: rest)); [exact Hem|].
  apply os_RemoveAll_emits.
Qed.

(** C2, what the code does. In a process that has not yet been
    initialised, let [setup] fail with [e] during a first invocation of
    [Run].  That invocation returns [e] and the [once] is spent.  A later
    invocation whose payload decodes does not see [e]: it skips [setup],
    goes on to [process] (its first call creates the workspace) and
    returns whatever [process] returns. *)
Theorem later_Run_does_not_see_failed_setup
    (env : Env) (m1 m2 : PubSubMessage) (d1 d2 : Data) (w : World) (e : error_value) :
  once_done w = false ->
  json_Unmarshal env (payload m1) = inl d1 ->
  json_Unmarshal env (payload m2) = inl d2 ->
  (setup env w).1 = Some e ->
  (Run env m1 w).1 = Returned (Some e)
  /\ once_done (Run env m1 w).2 = true
  /\ (Run env m2 (Run env m1 w).2).1 = (process env d2 (Run env m1 w).2).1
  /\ exists evs,
       emits (Run env m1 w).2 (Run env m2 (Run env m1 w).2).2
             (EvMkdir (localWorkingDir d2) :: evs).
Proof.
  intros Hw H1 H2 Hs.
  assert (Hfirst : (Run env m1 w).1 = Returned (Some e)
                   /\ once_done (Run env m1 w).2 = true).
  { unfold Run, once_Do. rewrite H1. simpl. rewrite Hw.
    destruct (setup env w) as [err w1]. simpl in Hs. subst err. by simpl. }
  destruct Hfirst as [Hr Hdone]. split; [exact Hr|]. split; [exact Hdone|].
  destruct (Run_after_once env m2 d2 _ Hdone H2) as [Hres (logs & Hlogs & _)].
  split; [exact Hres|].
  destruct (process_first_and_last_call env d2 (Run env m1 w).2) as [evs Hem].
  eexists. eapply (emits_trans _ _ _ (_ :: _)); [exact Hem | exact Hlogs].
Qed.

(** C2, at a concrete input: [git config] fails in the first invocation;
    the second invocation runs the whole job and returns nil. *)
Lemma later_Run_does_not_see_failed_setup_witness :
  let m := {| payload := "job" |} in
  let w1 := (Run setup_fails_env m boot).2 in
  (Run setup_fails_env m boot).1 = Returned (New (Some exit_255) EmptyString)
  /\ (Run setup_fails_env m w1).1 = Returned None
  /\ stages_of (events_since w1 (Run setup_fails_env m w1).2) = all_stages.
Proof.
  cbv zeta.
  destruct (later_Run_does_not_see_failed_setup setup_fails_env
              {| payload := "job" |} {| payload := "job" |} job_u1 job_u1 boot
              (WorkerError (mk_err (Some exit_255) EmptyString))
              eq_refl eq_refl eq_refl eq_refl)
    as (Hr1 & _ & Hr2 & _).
  split; [exact Hr1|]. split; [rewrite Hr2|]; vm_compute; reflexivity.
Defined.

(** The same with a storage client that cannot be made: the first
    invocation returns the error of [storage.NewClient]; the second
    creates the workspace, clones, then dereferences the nil client; the
    deferred cleanup still runs. *)
Example later_Run_with_nil_client_panics :
  let m := {| payload := "job" |} in
  let w1 := (Run no_client_env m boot).2 in
  (Run no_client_env m boot).1 = Returned (Some no_credentials)
  /\ (Run no_client_env m w1).1 = Panicked
  /\ stages_of (events_since w1 (Run no_client_env m w1).2)
     = [StMakeWorkingDir; StClone]
  /\ last (trace (Run no_client_env m w1).2) = Some (EvRemoveAll "/tmp/u1").
Proof. cbv zeta. repeat split; vm_compute; reflexivity. Qed.

(** The specification's example of a listing that fails on its second
    page: the error is tagged with the materialisation stage, nothing is
    committed, the workspace is removed. *)
Example listing_error_aborts_job :
  (process listing_fails_env job_u1 warm).1
  = Returned (New (Some context_Canceled) "writeContentFromStorageToFile")
  /\ stages_of (trace (process listing_fails_env job_u1 warm).2)
     = [StMakeWorkingDir; StClone; StWrite]
  /\ opened (trace (process listing_fails_env job_u1 warm).2) = []
  /\ fs (process listing_fails_env job_u1 warm).2 !! "/tmp/u1" = None.
Proof. repeat split; vm_compute; reflexivity. Qed.

(** ** The message of a stage error *)

(** When marshalling fails, [Error] falls back on the format that spells
    out the text of the cause and the extra. *)
Lemma Error_fallback (cause : error_value) (extra : string) :
  marshal_value cause = None ->
  Error (mk_err (Some cause) extra)
  = "Err: " +:+ Error_text cause +:+ " | Extra: " +:+ extra.
Proof. intros H. unfold Error. simpl. by rewrite H. Qed.

(** C8, what the code does. The message of the error [process] returns
    is the JSON form of the pair (cause, stage), and the JSON form of a
    library error is made of its exported fields, not of its text.  When
    [/tmp/u1] exists the message names the stage and the path, and has
    the errno 17 where the text of the cause says "file exists"; when the
    listing is cancelled the message holds an empty object for the cause
    and the text "context canceled" is nowhere in it; when the clone is
    refused neither the exit status nor the tool's complaint is in it. *)
Theorem stage_error_message_lacks_cause_text :
  let q := json_quote in
  let stale := with_fs (<["/tmp/u1" := Dir]> (fs warm)) warm in
  let m1 := message (returned_error (process calm_env job_u1 stale).1) in
  let m2 := message (returned_error (process listing_fails_env job_u1 warm).1) in
  let m3 := message (returned_error (process clone_refused_env job_u1 warm).1) in
  (process calm_env job_u1 stale).1
  = Returned (New (Some (EEXIST "mkdir" "/tmp/u1")) "makeWorkingDir")
  /\ Error_text (EEXIST "mkdir" "/tmp/u1") = "mkdir /tmp/u1: file exists"
  /\ m1 = "{" +:+ q "err" +:+ ":{" +:+ q "Op" +:+ ":" +:+ q "mkdir" +:+ ","
          +:+ q "Path" +:+ ":" +:+ q "/tmp/u1" +:+ "," +:+ q "Err" +:+ ":17},"
          +:+ q "extra" +:+ ":" +:+ q "makeWorkingDir" +:+ "}"
  /\ Contains m1 "makeWorkingDir" = true
  /\ Contains m1 "file exists" = false
  /\ (process listing_fails_env job_u1 warm).1
     = Returned (New (Some context_Canceled) "writeContentFromStorageToFile")
  /\ m2 = "{" +:+ q "err" +:+ ":{}," +:+ q "extra" +:+ ":"
          +:+ q "writeContentFromStorageToFile" +:+ "}"
  /\ Contains m2 "context canceled" = false
  /\ (process clone_refused_env job_u1 warm).1
     = Returned (New (New (Some exit_128) EmptyString) "cloneGithubRepo")
  /\ Contains m3 "exit status 128" = false
  /\ Contains m3 "Authentication failed" = false.
Proof. cbv zeta. repeat split; vm_compute; reflexivity. Qed.

(** * Further properties of the code *)

(** ** Strings *)

Lemma append_cons (x : ascii) (a b : string) :
  String x a +:+ b = String x (a +:+ b).
Proof. reflexivity. Qed.

Lemma append_nil_l (b : string) : EmptyString +:+ b = b.
Proof. reflexivity. Qed.

Lemma append_assoc (a b c : string) : (a +:+ b) +:+ c = a +:+ (b +:+ c).
Proof.
  induction a as [|x a IH]; [done|]. rewrite !append_cons. by f_equal.
Qed.

Lemma prefix_app (a b : string) : String.prefix a (a +:+ b) = true.
Proof.
  induction a as [|x a IH]; [by destruct b|].
  rewrite append_cons. simpl. by destruct (ascii_dec x x).
Qed.

Lemma prefix_app_r (sub a b : string) :
  String.prefix sub a = true -> String.prefix sub (a +:+ b) = true.
Proof.
  revert a. induction sub as [|x sub IH]; intros a; simpl.
  { intros _. by destruct (a +:+ b). }
  destruct a as [|y a]; [discriminate|]. rewrite append_cons. simpl.
  destruct (ascii_dec x y); [apply IH | discriminate].
Qed.

Lemma Contains_prefix (s sub : string) :
  String.prefix sub s = true -> Contains s sub = true.
Proof.
  intros H. destruct s; unfold Contains; fold Contains; unfold HasPrefix;
    by rewrite H.
Qed.

Lemma Contains_app_l (a b sub : string) :
  Contains b sub = true -> Contains (a +:+ b) sub = true.
Proof.
  intros H. induction a as [|x a IH]; [done|].
  rewrite append_cons. simpl. rewrite IH. apply orb_true_r.
Qed.

Lemma Contains_app_r (a b sub : string) :
  Contains a sub = true -> Contains (a +:+ b) sub = true.
Proof.
  induction a as [|x a IH].
  - simpl. rewrite orb_false_r. unfold HasPrefix. destruct sub; [|discriminate].
    intros _. apply Contains_prefix. rewrite append_nil_l. by destruct b.
  - rewrite append_cons. simpl. intros H. apply orb_true_iff in H as [H | H].
    + apply orb_true_iff. left. unfold HasPrefix in *.
      by apply (prefix_app_r sub (String x a) b).
    + rewrite (IH H). apply orb_true_r.
Qed.

Lemma all_bytes_app (p : ascii -> bool) (a b : string) :
  all_bytes p (a +:+ b) = all_bytes p a && all_bytes p b.
Proof.
  induction a as [|x a IH]; [done|].
  rewrite append_cons. simpl. by rewrite IH, andb_assoc.
Qed.

Lemma all_bytes_concat (p : ascii -> bool) (sep : string) (ms : list string) :
  all_bytes p sep = true ->
  Forall (fun m => all_bytes p m = true) ms ->
  all_bytes p (String.concat sep ms) = true.
Proof.
  intros Hsep. induction 1 as [|m ms Hm _ IH]; simpl; [done|].
  destruct ms as [|m' ms]; [done|].
  rewrite !all_bytes_app, Hm, Hsep. exact IH.
Qed.

(** ** The log entries *)

Lemma json_escape_byte_printable (c : ascii) :
  all_bytes printable (json_escape_byte c) = true.
Proof. destruct c as [[] [] [] [] [] [] [] []]; reflexivity. Qed.

Lemma json_escape_printable (s : string) :
  all_bytes printable (json_escape s) = true.
Proof.
  induction s as [|c s IH]; simpl; [done|].
  by rewrite all_bytes_app, json_escape_byte_printable, IH.
Qed.

Lemma json_quote_printable (s : string) :
  all_bytes printable (json_quote s) = true.
Proof.
  unfold json_quote. by rewrite !all_bytes_app, json_escape_printable.
Qed.

Lemma member_printable (key value : string) :
  all_bytes printable (json_quote key +:+ ":" +:+ json_quote value) = true.
Proof. by rewrite !all_bytes_app, !json_quote_printable. Qed.

Lemma omitempty_printable (key value : string) :
  Forall (fun m => all_bytes printable m = true) (omitempty key value).
Proof.
  unfold omitempty. destruct (String.eqb value EmptyString); [constructor|].
  constructor; [apply member_printable | constructor].
Qed.

(** X1. Whatever the entry holds, its rendering writes a severity (INFO
    when the entry has none) and has no control character in it: line
    feeds of the message are escaped, so that [Println] writes one entry
    on one line. *)
Theorem Entry_String_one_line_with_severity (e : Entry) :
  (Severity e = EmptyString ->
   Entry_String e
   = Entry_String {| Message := Message e; Severity := "INFO";
                     Trace := Trace e; Component := Component e |})
  /\ Contains (Entry_String e) (json_quote "severity" +:+ ":") = true
  /\ all_bytes printable (Entry_String e) = true
  /\ Println e = Entry_String e +:+ newline.
Proof.
  split; [|split; [|split; [|reflexivity]]].
  - intros H. unfold Entry_String. simpl. by rewrite H.
  - unfold Entry_String, json_object.
    set (sev := if String.eqb (Severity e) EmptyString then "INFO" else Severity e).
    assert (Hsev : String.eqb sev EmptyString = false).
    { unfold sev. by destruct (String.eqb (Severity e) EmptyString) eqn:E. }
    unfold omitempty at 1. rewrite Hsev.
    apply Contains_app_l, Contains_app_r.
    change (String.concat "," (?m :: [?sv] ++ ?rest))
      with (m +:+ "," +:+ String.concat "," (sv :: rest)).
    apply Contains_app_l, Contains_app_l, Contains_prefix.
    simpl. destruct (_ ++ _);
      rewrite ?append_assoc, <- (append_assoc (json_quote "severity") ":");
      apply prefix_app.
  - unfold Entry_String, json_object.
    rewrite !all_bytes_app.
    change (all_bytes printable "{") with true.
    change (all_bytes printable "}") with true.
    rewrite andb_true_r, andb_true_l.
    apply all_bytes_concat; [done|].
    constructor; [apply member_printable|].
    rewrite !Forall_app. repeat split; apply omitempty_printable.
Qed.

(** ** The text of a stage error *)

Lemma Error_json (cause : error_value) (extra j : string) :
  marshal_value cause = Some j ->
  Error (mk_err (Some cause) extra)
  = json_object ((json_quote "err" +:+ ":" +:+ j) :: extra_member extra).
Proof. intros H. unfold Error. simpl. by rewrite H. Qed.

Lemma Contains_refl (s : string) : Contains s s = true.
Proof.
  apply Contains_prefix. induction s as [|c s IH]; simpl; [done|].
  by destruct (ascii_dec c c).
Qed.

(** X2. The error a failed job returns is made by [New] from the cause
    and the name of a stage, and its text always holds that name, in the
    JSON form as well as in the fallback form; in the fallback form
    (taken when the cause cannot be marshalled) it holds the text of the
    cause too. *)
Theorem stage_error_text_names_the_stage
    (env : Env) (d : Data) (w : World) (e : error_value) :
  (process env d w).1 = Returned (Some e) ->
  exists st cause,
    e = WorkerError (mk_err (Some cause) (stage_name st))
    /\ errors_Unwrap (Some e) = Some cause
    /\ Contains (Error_text e) (stage_name st) = true
    /\ (marshal_value cause = None ->
        Contains (Error_text e) (Error_text cause) = true).
Proof.
  intros He.
  destruct (process_body_trace env d w) as (evs & ran & Hrun & _).
  unfold process in He. destruct (process_body env d w) as [o w1].
  simpl in He. subst o.
  apply run_stages_error in Hrun
    as (pre & st & f & post & w0 & cause & _ & _ & _ & _ & ->).
  exists st, cause. split; [done|]. split; [done|].
  change (Error_text (WorkerError ?x)) with (Error x).
  destruct (marshal_value cause) as [j|] eqn:Hj.
  - split; [|discriminate].
    rewrite (Error_json _ _ j Hj). unfold json_object.
    apply Contains_app_l, Contains_app_r.
    assert (Hm : exists m, extra_member (stage_name st) = [m]
                           /\ Contains m (stage_name st) = true).
    { destruct st; eexists; (split; [reflexivity | vm_compute; reflexivity]). }
    destruct Hm as (m & -> & Hm).
    change (String.concat "," [?a; m]) with (a +:+ "," +:+ m).
    by apply Contains_app_l, Contains_app_l.
  - rewrite (Error_fallback _ _ Hj). split.
    + do 3 apply Contains_app_l. apply Contains_refl.
    + intros _. apply Contains_app_l, Contains_app_r, Contains_refl.
Qed.

(** X2, at a concrete input: the clone is refused. *)
Lemma stage_error_text_names_the_stage_witness :
  let e := WorkerError (mk_err (New (Some exit_128) EmptyString) "cloneGithubRepo") in
  (process clone_refused_env job_u1 warm).1 = Returned (Some e)
  /\ exists st cause,
       e = WorkerError (mk_err (Some cause) (stage_name st))
       /\ errors_Unwrap (Some e) = Some cause
       /\ Contains (Error_text e) (stage_name st) = true
       /\ (marshal_value cause = None ->
           Contains (Error_text e) (Error_text cause) = true).
Proof.
  cbv zeta. split; [reflexivity|].
  exact (stage_error_text_names_the_stage clone_refused_env job_u1 warm _ eq_refl).
Defined.

(** ** What every call of a job is *)

Section Calls_of_a_job.
Context (env : Env) (d : Data).

Lemma cloneGithubRepo_emits w :
  emits w (cloneGithubRepo env d w).2
        [EvExec (localWorkingDir d) "git" ["clone"; cloneURL d]].
Proof. unfold cloneGithubRepo, run_Output. simpl. by destruct (ExitErr _). Qed.

Lemma pushToRemote_emits w :
  emits w (pushToRemote env d w).2
        [EvExec (localRepoPath d) "git" ["push"; "-u"; "origin"; "HEAD"]].
Proof. unfold pushToRemote, run_Output. simpl. by destruct (ExitErr _). Qed.

Lemma makeGitCommit_emits w :
  let add := EvExec (localRepoPath d) "git" ["add"; localRelativeFilePath d] in
  let commit := EvExec (localRepoPath d) "git" ["commit"; "-m"; CommitMessage d] in
  match ExitErr (cmd_Output env (trace w) (localRepoPath d) "git"
                   ["add"; localRelativeFilePath d]) with
  | Some _ => emits w (makeGitCommit env d w).2 [add]
  | None => emits w (makeGitCommit env d w).2 [add; commit]
  end.
Proof.
  cbv zeta. unfold makeGitCommit, run_Output. simpl.
  destruct (ExitErr _); [reflexivity|]. simpl.
  destruct (ExitErr _); unfold emits; simpl; by rewrite <- app_assoc.
Qed.

Lemma writeContentFromStorageToFile_extends w :
  exists evs,
    emits w (writeContentFromStorageToFile env d w).2 evs
    /\ Forall (of_stage StWrite) evs.
Proof.
  pose proof (writeContentFromStorageToFile_block env d w) as H.
  destruct (writeContentFromStorageToFile env d w) as [[e|] w'] eqn:E; simpl in *.
  - destruct H as (evs & Hem & [Hall _]). by exists evs.
  - subst w'. exists []. split; [apply emits_refl | constructor].
Qed.

(** A property of single calls that holds for the calls of each stage
    holds for all the calls of the stages. *)
Lemma process_body_Forall (P : Event -> Prop) w :
  P (EvMkdir (localWorkingDir d)) ->
  P (EvExec (localWorkingDir d) "git" ["clone"; cloneURL d]) ->
  (forall e, of_stage StWrite e -> P e) ->
  P (EvExec (localRepoPath d) "git" ["add"; localRelativeFilePath d]) ->
  P (EvExec (localRepoPath d) "git" ["commit"; "-m"; CommitMessage d]) ->
  P (EvExec (localRepoPath d) "git" ["push"; "-u"; "origin"; "HEAD"]) ->
  exists evs, emits w (process_body env d w).2 evs /\ Forall P evs.
Proof.
  intros Pmk Pclone Pwrite Padd Pcommit Ppush.
  unfold process_body.
  pose proof (os_Mkdir_emits env (localWorkingDir d) w) as H1.
  fold (makeWorkingDir env d w) in H1.
  destruct (makeWorkingDir env d w) as [[e1|] w1]; simpl in *.
  { eexists. split; [exact H1|]. by repeat constructor. }
  pose proof (cloneGithubRepo_emits w1) as H2.
  destruct (cloneGithubRepo env d w1) as [[e2|] w2]; simpl in *.
  { eexists. split; [by eapply emits_trans|]. by repeat constructor. }
  destruct (writeContentFromStorageToFile_extends w2) as (ev3 & H3 & Hall3).
  assert (HP3 : Forall P ev3).
  { eapply Forall_impl; [exact Hall3 | exact Pwrite]. }
  destruct (writeContentFromStorageToFile env d w2) as [[[e3|]|] w3]; simpl in *.
  - eexists. split; [eapply emits_trans; [exact H1|]; by eapply emits_trans|].
    constructor; [done|]. by constructor.
  - pose proof (makeGitCommit_emits w3) as H4. cbv zeta in H4.
    assert (H4' : exists ev4, emits w3 (makeGitCommit env d w3).2 ev4 /\ Forall P ev4).
    { destruct (ExitErr _); eexists; (split; [exact H4|]); by repeat constructor. }
    destruct H4' as (ev4 & Hem4 & HP4).
    pose (mk := EvMkdir (localWorkingDir d)).
    pose (cl := EvExec (localWorkingDir d) "git" ["clone"; cloneURL d]).
    pose (ps := EvExec (localRepoPath d) "git" ["push"; "-u"; "origin"; "HEAD"]).
    destruct (makeGitCommit env d w3) as [[e4|] w4]; simpl in *.
    { exists ([mk] ++ [cl] ++ ev3 ++ ev4). split.
      - repeat (eapply emits_trans; [done|]); done.
      - rewrite !Forall_app. repeat split; try done; by repeat constructor. }
    pose proof (pushToRemote_emits w4) as H5.
    exists ([mk] ++ [cl] ++ ev3 ++ ev4 ++ [ps]).
    assert (Hem : emits w (pushToRemote env d w4).2
                    ([mk] ++ [cl] ++ ev3 ++ ev4 ++ [ps])).
    { repeat (eapply emits_trans; [done|]); done. }
    assert (HP : Forall P ([mk] ++ [cl] ++ ev3 ++ ev4 ++ [ps])).
    { rewrite !Forall_app. repeat split; try done; by repeat constructor. }
    by destruct (pushToRemote env d w4) as [[e5|] w5].
  - eexists. split; [eapply emits_trans; [exact H1|]; by eapply emits_trans|].
    constructor; [done|]. by constructor.
Qed.

Lemma process_Forall (P : Event -> Prop) w :
  P (EvMkdir (localWorkingDir d)) ->
  P (EvExec (localWorkingDir d) "git" ["clone"; cloneURL d]) ->
  (forall e, of_stage StWrite e -> P e) ->
  P (EvExec (localRepoPath d) "git" ["add"; localRelativeFilePath d]) ->
  P (EvExec (localRepoPath d) "git" ["commit"; "-m"; CommitMessage d]) ->
  P (EvExec (localRepoPath d) "git" ["push"; "-u"; "origin"; "HEAD"]) ->
  P (EvRemoveAll (localWorkingDir d)) ->
  exists evs, emits w (process env d w).2 evs /\ Forall P evs.
Proof.
  intros Pmk Pclone Pwrite Padd Pcommit Ppush Prm.
  destruct (process_body_Forall P w) as (evs & Hem & HP); try done.
  unfold process. destruct (process_body env d w) as [o w1]. simpl in *.
  exists (evs ++ [EvRemoveAll (localWorkingDir d)]). split.
  - eapply emits_trans; [exact Hem | apply os_RemoveAll_emits].
  - apply Forall_app. split; [done | by repeat constructor].
Qed.

End Calls_of_a_job.

Lemma write_event_not_exec (e : Event) :
  of_stage StWrite e -> match e with EvExec _ _ _ => False | _ => True end.
Proof.
  intros [He | [m ->]]; [|done]. destruct e; try done.
  simpl in He. destruct args as [|sub args]; [discriminate|].
  destruct (String.eqb sub "clone"); [discriminate|].
  destruct (String.eqb sub "add" || String.eqb sub "commit"); [discriminate|].
  destruct (String.eqb sub "push"); discriminate.
Qed.

(** X3. The only program a job runs is git, and only with these
    commands: [clone <url>] in the workspace directory, and
    [add <project>/<file>], [commit -m <message>] and
    [push -u origin HEAD] in [<workspace>/<repo>]; the commit message is
    one argument whatever it holds. *)
Theorem process_runs_only_its_git_commands (env : Env) (d : Data) (w : World) :
  exists evs,
    emits w (process env d w).2 evs
    /\ Forall (job_command d) evs.
Proof.
  apply process_Forall; simpl; try done; try (split; [done|]; tauto).
  intros e He. apply write_event_not_exec in He. by destruct e.
Qed.

(** ** The package variables *)

Section Package_variables.
Context (env : Env) (d : Data).

Lemma same_vars_refl w : same_vars w w.
Proof. by split. Qed.

Lemma same_vars_trans w w1 w2 :
  same_vars w w1 -> same_vars w1 w2 -> same_vars w w2.
Proof. intros [? ?] [? ?]. split; congruence. Qed.

Lemma os_Mkdir_vars p w : same_vars w (os_Mkdir env p w).2.
Proof.
  unfold os_Mkdir. destruct (fs w !! p); [done|].
  by destruct (os_Mkdir_fault env (trace w) p).
Qed.

Lemma os_MkdirAll_vars p w : same_vars w (os_MkdirAll env p w).2.
Proof.
  unfold os_MkdirAll. destruct (fs w !! p) as [[]|]; try done.
  by destruct (os_MkdirAll_fault env (trace w) p).
Qed.

Lemma os_Create_vars p w : same_vars w (os_Create env p w).2.
Proof.
  unfold os_Create.
  destruct (fs w !! p) as [[]|]; try done;
    by destruct (os_Create_fault env (trace w) p).
Qed.

Lemma os_RemoveAll_vars p w : same_vars w (os_RemoveAll env p w).2.
Proof.
  unfold os_RemoveAll. by destruct (os_RemoveAll_fault env (trace w) p).
Qed.

Lemma cloneGithubRepo_vars w : same_vars w (cloneGithubRepo env d w).2.
Proof. unfold cloneGithubRepo, run_Output. simpl. by destruct (ExitErr _). Qed.

Lemma makeGitCommit_vars w : same_vars w (makeGitCommit env d w).2.
Proof.
  unfold makeGitCommit, run_Output. simpl.
  destruct (ExitErr _); [done|]. simpl. by destruct (ExitErr _).
Qed.

Lemma pushToRemote_vars w : same_vars w (pushToRemote env d w).2.
Proof. unfold pushToRemote, run_Output. simpl. by destruct (ExitErr _). Qed.

Lemma write_one_vars bucket object w :
  same_vars w (_writeContentFromStorageToFile env d bucket object w).2.
Proof.
  unfold _writeContentFromStorageToFile.
  destruct (object_NewReader env (trace w) bucket object); [done|].
  set (w1 := emit (EvNewReader bucket object) w).
  pose proof (os_MkdirAll_vars ("/tmp/" +:+ path_Dir env object) w1) as H2.
  destruct (os_MkdirAll env _ w1) as [[e2|] w2]; simpl in *; [done|].
  pose proof (os_Create_vars ("/tmp/" +:+ object) w2) as H3.
  destruct (os_Create env _ w2) as [[e3|] w3]; simpl in *.
  - eapply (same_vars_trans w w2); [done|]. by destruct H3.
  - eapply (same_vars_trans w w2); [done|]. by destruct H3.
Qed.

Lemma write_files_vars bucket files w :
  same_vars w (write_files env d bucket files w).2.
Proof.
  revert w. induction files as [|file rest IH]; intros w; simpl; [done|].
  pose proof (write_one_vars bucket file w) as H1.
  destruct (_writeContentFromStorageToFile env d bucket file w) as [[e|] w1];
    simpl in *; [done|].
  eapply same_vars_trans; [exact H1 | apply IH].
Qed.

Lemma writeContentFromStorageToFile_vars w :
  same_vars w (writeContentFromStorageToFile env d w).2.
Proof.
  unfold writeContentFromStorageToFile. destruct (storageClient w) eqn:Hc; [|done].
  rewrite drain_listing. destruct (listing _) as [names [e|]]; simpl; [done|].
  pose proof (write_files_vars (bucketName env)
                (filter (fun n => HasSuffix n "/" = false) names)
                (emit_list (replicate (S (length names)) EvNext)
                   (emit (EvObjects (bucketName env) (UserID d)) w))) as H.
  destruct (write_files env d _ _ _) as [err w3]. simpl in *.
  destruct H as [H1 H2]. split; [by rewrite H1 | by rewrite H2].
Qed.

(** The stages and the cleanup leave [once] and [storageClient] as they
    are: only [Run] spends the one, and only [setup] assigns the other. *)
Lemma process_vars w : same_vars w (process env d w).2.
Proof.
  unfold process, process_body.
  pose proof (os_Mkdir_vars (localWorkingDir d) w) as H1.
  fold (makeWorkingDir env d w) in H1.
  assert (Hclean : forall w1, same_vars w w1 ->
            same_vars w (cleanup env d w1)).
  { intros w1 H. eapply same_vars_trans; [exact H|]. apply os_RemoveAll_vars. }
  destruct (makeWorkingDir env d w) as [[e1|] w1]; simpl in *; [by apply Hclean|].
  pose proof (cloneGithubRepo_vars w1) as H2.
  destruct (cloneGithubRepo env d w1) as [[e2|] w2]; simpl in *.
  { apply Hclean. by eapply same_vars_trans. }
  pose proof (writeContentFromStorageToFile_vars w2) as H3.
  assert (H13 : same_vars w (writeContentFromStorageToFile env d w2).2).
  { eapply same_vars_trans; [|exact H3]. by eapply same_vars_trans. }
  destruct (writeContentFromStorageToFile env d w2) as [[[e3|]|] w3]; simpl in *;
    try by apply Hclean.
  pose proof (makeGitCommit_vars w3) as H4.
  destruct (makeGitCommit env d w3) as [[e4|] w4]; simpl in *.
  { apply Hclean. by eapply same_vars_trans. }
  pose proof (pushToRemote_vars w4) as H5.
  destruct (pushToRemote env d w4) as [[e5|] w5]; simpl in *;
    apply Hclean;
    (eapply same_vars_trans; [|exact H5]); by eapply same_vars_trans.
Qed.

End Package_variables.

(** ** Panics *)

Lemma writeContentFromStorageToFile_Panicked (env : Env) (d : Data) (w : World) :
  (writeContentFromStorageToFile env d w).1 = Panicked <-> storageClient w = None.
Proof.
  unfold writeContentFromStorageToFile. destruct (storageClient w); [|done].
  rewrite drain_listing. destruct (listing _) as [names [e|]]; simpl; [done|].
  by destruct (write_files env d _ _ _).
Qed.

Lemma process_Panicked_iff (env : Env) (d : Data) (w : World) :
  (process env d w).1 = Panicked
  <-> storageClient w = None
      /\ (makeWorkingDir env d w).1 = None
      /\ (cloneGithubRepo env d (makeWorkingDir env d w).2).1 = None.
Proof.
  - unfold process, process_body.
    pose proof (os_Mkdir_vars env (localWorkingDir d) w) as [_ H1].
    fold (makeWorkingDir env d w) in H1.
    destruct (makeWorkingDir env d w) as [[e1|] w1]; simpl in *.
    { split; [discriminate | by intros (_ & ? & _)]. }
    pose proof (cloneGithubRepo_vars env d w1) as [_ H2].
    destruct (cloneGithubRepo env d w1) as [[e2|] w2]; simpl in *.
    { split; [discriminate | by intros (_ & _ & ?)]. }
    pose proof (writeContentFromStorageToFile_Panicked env d w2) as H3.
    rewrite H2, H1 in H3.
    destruct (writeContentFromStorageToFile env d w2) as [[[e3|]|] w3]; simpl in *.
    + split; [discriminate|]. intros (Hc & _). apply H3 in Hc. discriminate.
    + assert (Hno : storageClient w <> None).
      { intros Hc. apply H3 in Hc. discriminate. }
      destruct (makeGitCommit env d w3) as [[e4|] w4]; simpl.
      { split; [discriminate | by intros (? & _)]. }
      destruct (pushToRemote env d w4) as [[e5|] w5]; simpl;
        (split; [discriminate | by intros (? & _)]).
    + split; [|done]. intros _. split; [by apply H3 | done].
Qed.

Lemma process_last_call (env : Env) (d : Data) (w : World) :
  last (trace (process env d w).2) = Some (EvRemoveAll (localWorkingDir d)).
Proof.
  destruct (process_first_and_last_call env d w) as [evs Hem].
  unfold emits in Hem. rewrite Hem.
  change (EvMkdir (localWorkingDir d) :: evs ++ [EvRemoveAll (localWorkingDir d)])
    with ((EvMkdir (localWorkingDir d) :: evs) ++ [EvRemoveAll (localWorkingDir d)]).
  by rewrite app_assoc, last_snoc.
Qed.

(** X4. [process] panics in exactly one situation: the storage client is
    nil and the first two stages succeeded, so that the materialisation
    is reached.  Whether it returns or panics, the last thing it does is
    the removal of the workspace. *)
Theorem process_panics_exactly_on_nil_client (env : Env) (d : Data) (w : World) :
  ((process env d w).1 = Panicked
   <-> storageClient w = None
       /\ (makeWorkingDir env d w).1 = None
       /\ (cloneGithubRepo env d (makeWorkingDir env d w).2).1 = None)
  /\ last (trace (process env d w).2) = Some (EvRemoveAll (localWorkingDir d)).
Proof.
  split; [apply process_Panicked_iff | apply process_last_call].
Qed.

(** ** The initialisation *)

Lemma setup_calls (env : Env) (w : World) :
  exists evs,
    emits w (setup env w).2 evs
    /\ evs `prefix_of` init_calls env
    /\ (exists rest, evs = EvNewClient :: rest)
    /\ once_done (setup env w).2 = once_done w
    /\ fs (setup env w).2 = fs w
    /\ ((setup env w).1 = None ->
        evs = init_calls env /\ storageClient (setup env w).2 = Some TheClient)
    /\ (storageClient (setup env w).2 = None
        <-> storage_NewClient env (trace w) <> None).
Proof.
  unfold setup, init_calls.
  destruct (storage_NewClient env (trace w)) as [e0|]; simpl.
  { exists [EvNewClient]. repeat split; try done; by eexists. }
  unfold run_Output. simpl.
  destruct (ExitErr _); simpl.
  { exists [EvNewClient; EvExec EmptyString "git"
              ["config"; "--global"; "user.email"; dq +:+ committerEmail env +:+ dq]].
    split; [unfold emits; simpl; by rewrite <- app_assoc|].
    repeat split; try done; try by eexists. }
  destruct (ExitErr _); simpl;
    (eexists [_; _; _];
     split; [unfold emits; simpl; by rewrite <- !app_assoc|];
     repeat split; try done; try by eexists).
Qed.


(** ** What [Run] reports *)

Section Reports.
Context (env : Env).

Lemma writeContentFromStorageToFile_nil_quiet d w w' :
  writeContentFromStorageToFile env d w = (Returned None, w') ->
  exists evs, emits w w' evs /\ Forall (fun e => is_log e = false) evs.
Proof.
  unfold writeContentFromStorageToFile. destruct (storageClient w); [|discriminate].
  rewrite drain_listing. destruct (listing _) as [names [e|]]; simpl; [discriminate|].
  rewrite emit_emit_list. set (w2 := emit_list _ w).
  destruct (write_files_emits env d (bucketName env)
              (filter (fun n => HasSuffix n "/" = false) names) w2)
    as (copies & Hem & Hall & _).
  destruct (write_files env d _ _ w2) as [err w3]. simpl in *.
  intros [= -> ->]. eexists. split.
  { eapply (emits_trans w w2 w'); [apply emit_list_emits | exact Hem]. }
  apply Forall_app. split.
  - constructor; [done|]. constructor; [done|].
    apply Forall_forall. intros x Hx. by apply elem_of_replicate in Hx as [-> _].
  - eapply Forall_impl; [exact Hall|]. intros x Hx. by destruct x.
Qed.

Lemma process_body_nil_quiet d w w' :
  process_body env d w = (Returned None, w') ->
  exists evs, emits w w' evs /\ Forall (fun e => is_log e = false) evs.
Proof.
  unfold process_body.
  pose proof (os_Mkdir_emits env (localWorkingDir d) w) as H1.
  fold (makeWorkingDir env d w) in H1.
  destruct (makeWorkingDir env d w) as [[e1|] w1]; [discriminate|].
  pose proof (cloneGithubRepo_emits env d w1) as H2.
  destruct (cloneGithubRepo env d w1) as [[e2|] w2]; [discriminate|].
  pose proof (writeContentFromStorageToFile_nil_quiet d w2) as H3.
  destruct (writeContentFromStorageToFile env d w2) as [[[e3|]|] w3];
    try discriminate.
  destruct (H3 w3 eq_refl) as (ev3 & Hem3 & Hq3).
  pose proof (makeGitCommit_emits env d w3) as H4. cbv zeta in H4.
  assert (H4' : exists ev4, emits w3 (makeGitCommit env d w3).2 ev4
                            /\ Forall (fun e => is_log e = false) ev4).
  { destruct (ExitErr _); eexists; (split; [exact H4|]); by repeat constructor. }
  destruct H4' as (ev4 & Hem4 & Hq4).
  destruct (makeGitCommit env d w3) as [[e4|] w4]; [discriminate|].
  pose proof (pushToRemote_emits env d w4) as H5.
  destruct (pushToRemote env d w4) as [[e5|] w5]; [discriminate|].
  intros [= <-]. simpl in *.
  eexists. split.
  { eapply emits_trans; [exact H1|]. eapply emits_trans; [exact H2|].
    eapply emits_trans; [exact Hem3|]. eapply emits_trans; [exact Hem4 | exact H5]. }
  rewrite !Forall_app. repeat split; try done; by repeat constructor.
Qed.

(** A job that ends well went through the five stages in order, without
    a log entry. *)
Lemma process_nil d w :
  (process env d w).1 = Returned None ->
  exists evs,
    emits w (process env d w).2 evs
    /\ stages_of evs = all_stages
    /\ Forall (fun e => is_log e = false) evs.
Proof.
  intros Hnil.
  destruct (process_body_trace env d w) as (evs & ran & Hrun & Hem & _ & _ & _ & Hst).
  unfold process in *. destruct (process_body env d w) as [o w1] eqn:Hb.
  simpl in Hnil, Hem, Hst |- *. subst o.
  apply run_stages_ok in Hrun. change ((pipeline env d).*1) with all_stages in Hrun.
  destruct (process_body_nil_quiet d w w1 Hb) as (evs' & Hem' & Hq).
  rewrite (emits_inj _ _ _ _ Hem' Hem) in Hq.
  exists (evs ++ [EvRemoveAll (localWorkingDir d)]). split.
  { eapply emits_trans; [exact Hem | apply os_RemoveAll_emits]. }
  split.
  - unfold stages_of in *. rewrite omap_app. simpl. rewrite app_nil_r.
    rewrite Hst; [by subst ran | discriminate].
  - apply Forall_app. split; [done | by repeat constructor].
Qed.

Lemma Run_undecodable m w e :
  json_Unmarshal env (payload m) = inr e ->
  Run env m w = (Returned (Some e), log_Error (Error_text e) w).
Proof. intros H. unfold Run. by rewrite H. Qed.

Lemma Run_fresh m d w :
  once_done w = false ->
  json_Unmarshal env (payload m) = inl d ->
  Run env m w
  = match (setup env w).1 with
    | Some e => (Returned (Some e), log_Error (Error_text e) (mark_done (setup env w).2))
    | None =>
        match process env d (mark_done (setup env w).2) with
        | (Returned (Some e), w2) => (Returned (Some e), log_Error (Error_text e) w2)
        | r => r
        end
    end.
Proof.
  intros Hw Hd. unfold Run, once_Do. rewrite Hd. simpl. rewrite Hw.
  by destruct (setup env w) as [[e|] w1].
Qed.

Lemma Run_spent m d w :
  once_done w = true ->
  json_Unmarshal env (payload m) = inl d ->
  Run env m w
  = match process env d w with
    | (Returned (Some e), w2) => (Returned (Some e), log_Error (Error_text e) w2)
    | r => r
    end.
Proof.
  intros Hw Hd. unfold Run. by rewrite Hd, once_Do_done.
Qed.

End Reports.

Lemma last_log_Error (msg : string) (w : World) :
  last (trace (log_Error msg w)) = Some (EvLog "ERROR" msg).
Proof. unfold log_Error, emit. simpl. apply last_snoc. Qed.

(** X6. [Run] can panic only in a process whose [once] is spent and whose
    storage client is nil, that is after an initialisation that failed in
    an earlier invocation: the invocation that runs [setup] never panics,
    nor does any invocation that finds a client. *)
Theorem Run_panics_only_after_failed_initialisation
    (env : Env) (m : PubSubMessage) (w : World) :
  (Run env m w).1 = Panicked ->
  once_done w = true /\ storageClient w = None.
Proof.
  intros Hp. destruct (json_Unmarshal env (payload m)) as [d|e] eqn:Hd.
  2:{ rewrite (Run_undecodable env m w e Hd) in Hp. discriminate. }
  destruct (once_done w) eqn:Hw.
  - split; [done|]. rewrite (Run_spent env m d w Hw Hd) in Hp.
    assert (Hpp : (process env d w).1 = Panicked).
    { by destruct (process env d w) as [[[e|]|] w2]. }
    by apply process_Panicked_iff in Hpp as (? & _).
  - exfalso. rewrite (Run_fresh env m d w Hw Hd) in Hp.
    destruct (setup_calls env w) as (evs & _ & _ & _ & _ & _ & Hnil & _).
    destruct (setup env w).1 as [e|] eqn:Hs; [discriminate|].
    destruct (Hnil eq_refl) as [_ Hc].
    assert (Hpp : (process env d (mark_done (setup env w).2)).1 = Panicked).
    { by destruct (process env d (mark_done (setup env w).2)) as [[[e|]|] w2]. }
    apply process_Panicked_iff in Hpp as (Hc' & _).
    simpl in Hc'. congruence.
Qed.

(** X6, at a concrete input: the second invocation after a client that
    could not be made. *)
Lemma Run_panics_only_after_failed_initialisation_witness :
  let w1 := (Run no_client_env {| payload := "job" |} boot).2 in
  (Run no_client_env {| payload := "job" |} w1).1 = Panicked
  /\ once_done w1 = true /\ storageClient w1 = None.
Proof.
  cbv zeta. split; [reflexivity|].
  exact (Run_panics_only_after_failed_initialisation no_client_env
           {| payload := "job" |}
           (Run no_client_env {| payload := "job" |} boot).2 eq_refl).
Defined.

(** X7. What [Run] returns can be read in the trace.  When it returns an
    error, the last thing it did was to log that error's text at
    severity ERROR.  When it returns nil, the payload was decoded, the
    five stages ran in their order, and nothing was logged. *)
Theorem Run_result_and_trace (env : Env) (m : PubSubMessage) (w : World) :
  (forall e, (Run env m w).1 = Returned (Some e) ->
             last (trace (Run env m w).2) = Some (EvLog "ERROR" (Error_text e)))
  /\ ((Run env m w).1 = Returned None ->
      exists d evs,
        json_Unmarshal env (payload m) = inl d
        /\ emits w (Run env m w).2 evs
        /\ stages_of evs = all_stages
        /\ Forall (fun e => is_log e = false) evs).
Proof.
  destruct (json_Unmarshal env (payload m)) as [d|e0] eqn:Hd.
  2:{ rewrite (Run_undecodable env m w e0 Hd). simpl. split; [|discriminate].
      intros e [= <-]. apply last_log_Error. }
  destruct (once_done w) eqn:Hw.
  - rewrite (Run_spent env m d w Hw Hd).
    pose proof (process_nil env d w) as Hnil.
    destruct (process env d w) as [[[e|]|] w2]; simpl in *.
    + split; [|discriminate]. intros e' [= <-]. apply last_log_Error.
    + split; [discriminate|]. intros _.
      destruct (Hnil eq_refl) as (evs & Hem & Hst & Hq). by exists d, evs.
    + split; discriminate.
  - rewrite (Run_fresh env m d w Hw Hd).
    destruct (setup_calls env w) as (ev0 & Hem0 & _ & _ & _ & _ & Hnil0 & _).
    destruct (setup env w).1 as [e|] eqn:Hs.
    { simpl. split; [|discriminate]. intros e' [= <-]. apply last_log_Error. }
    destruct (Hnil0 eq_refl) as [-> _].
    pose proof (process_nil env d (mark_done (setup env w).2)) as Hnil.
    destruct (process env d (mark_done (setup env w).2)) as [[[e|]|] w2];
      simpl in *.
    + split; [|discriminate]. intros e' [= <-]. apply last_log_Error.
    + split; [discriminate|]. intros _.
      destruct (Hnil eq_refl) as (evs & Hem & Hst & Hq).
      exists d, (init_calls env ++ evs). split; [done|]. split.
      { unfold emits in *. simpl in Hem. by rewrite Hem, Hem0, <- app_assoc. }
      split.
      * unfold stages_of in *. by rewrite omap_app.
      * apply Forall_app. split; [by repeat constructor | done].
    + split; discriminate.
Qed.

(** X7, at a concrete input: the first invocation in a fresh process
    where every call succeeds. *)
Lemma Run_result_and_trace_witness :
  (Run calm_env {| payload := "job" |} boot).1 = Returned None
  /\ exists d evs,
       json_Unmarshal calm_env "job" = inl d
       /\ emits boot (Run calm_env {| payload := "job" |} boot).2 evs
       /\ stages_of evs = all_stages
       /\ Forall (fun e => is_log e = false) evs.
Proof.
  split; [reflexivity|].
  exact (proj2 (Run_result_and_trace calm_env {| payload := "job" |} boot) eq_refl).
Defined.

(** ** Initialisation happens once *)

Section Once.
Context (env : Env).

Lemma filter_init_none (evs : list Event) :
  Forall (fun e => is_init_event e = false) evs ->
  filter (fun e => is_init_event e = true) evs = [].
Proof.
  induction 1 as [|e evs He _ IH]; [done|].
  rewrite filter_cons. case_decide; [congruence | done].
Qed.

Lemma filter_init_all (evs : list Event) :
  Forall (fun e => is_init_event e = true) evs ->
  filter (fun e => is_init_event e = true) evs = evs.
Proof.
  induction 1 as [|e evs He _ IH]; [done|].
  rewrite filter_cons. case_decide; [by f_equal | done].
Qed.

Lemma init_calls_are_init : Forall (fun e => is_init_event e = true) (init_calls env).
Proof. by repeat constructor. Qed.

Lemma process_makes_no_init_call d w :
  exists evs,
    emits w (process env d w).2 evs
    /\ Forall (fun e => is_init_event e = false) evs.
Proof.
  apply process_Forall; try done.
  intros e He. pose proof (write_event_not_exec e He) as Hx.
  destruct He as [He | [m ->]]; [|done]. by destruct e.
Qed.

(** One invocation: nothing of the initialisation when the [once] is
    spent; otherwise either the payload is refused and the [once] is
    kept, or the [once] is spent on a prefix of the initialisation. *)
Lemma Run_init_calls m w :
  exists evs,
    emits w (Run env m w).2 evs
    /\ (once_done w = true ->
        once_done (Run env m w).2 = true
        /\ Forall (fun e => is_init_event e = false) evs)
    /\ (once_done w = false ->
        (once_done (Run env m w).2 = false
         /\ Forall (fun e => is_init_event e = false) evs)
        \/ (once_done (Run env m w).2 = true
            /\ filter (fun e => is_init_event e = true) evs
               `prefix_of` init_calls env)).
Proof.
  destruct (json_Unmarshal env (payload m)) as [d|e0] eqn:Hd.
  2:{ rewrite (Run_undecodable env m w e0 Hd). simpl.
      exists [EvLog "ERROR" (Error_text e0)]. split; [done|]. split.
      - intros Hw. split; [done | by repeat constructor].
      - intros Hw. left. split; [done | by repeat constructor]. }
  assert (Hproc : forall w0, once_done w0 = true ->
    exists evs,
      emits w0 (match process env d w0 with
                | (Returned (Some e), w2) =>
                    (Returned (Some e), log_Error (Error_text e) w2)
                | r => r
                end).2 evs
      /\ once_done (match process env d w0 with
                    | (Returned (Some e), w2) =>
                        (Returned (Some e), log_Error (Error_text e) w2)
                    | r => r
                    end).2 = true
      /\ Forall (fun e => is_init_event e = false) evs).
  { intros w0 Hw0.
    destruct (process_makes_no_init_call d w0) as (evs & Hem & Hno).
    pose proof (process_vars env d w0) as [Ho _]. rewrite Hw0 in Ho.
    destruct (process env d w0) as [[[e|]|] w2]; simpl in *.
    - exists (evs ++ [EvLog "ERROR" (Error_text e)]). split.
      { eapply emits_trans; [exact Hem | apply emits_emit]. }
      split; [done|]. apply Forall_app. split; [done | by repeat constructor].
    - by exists evs.
    - by exists evs. }
  destruct (once_done w) eqn:Hw.
  - rewrite (Run_spent env m d w Hw Hd).
    destruct (Hproc w Hw) as (evs & Hem & Ho & Hno).
    exists evs. split; [done|]. split; [done | discriminate].
  - rewrite (Run_fresh env m d w Hw Hd).
    destruct (setup_calls env w) as (ev0 & Hem0 & Hpre0 & _ & _ & _ & _ & _).
    assert (Hf0 : filter (fun e => is_init_event e = true) ev0 = ev0).
    { apply filter_init_all. destruct Hpre0 as [k Hk].
      pose proof init_calls_are_init as Hall. rewrite Hk in Hall.
      by apply Forall_app in Hall as [? _]. }
    destruct (setup env w).1 as [e|] eqn:Hs.
    { simpl. exists (ev0 ++ [EvLog "ERROR" (Error_text e)]). split.
      { eapply (emits_trans w (mark_done (setup env w).2)); [exact Hem0|].
        apply emits_emit. }
      split; [discriminate|]. intros _. right. split; [done|].
      rewrite filter_app, Hf0. simpl. by rewrite app_nil_r. }
    destruct (Hproc (mark_done (setup env w).2) eq_refl) as (evs & Hem & Ho & Hno).
    exists (ev0 ++ evs). split.
    { eapply (emits_trans w (mark_done (setup env w).2)); [exact Hem0 | exact Hem]. }
    split; [discriminate|]. intros _. right. split; [done|].
    by rewrite filter_app, Hf0, (filter_init_none evs Hno), app_nil_r.
Qed.

(** X8. However many messages are handed to [Run] one after the other,
    and whatever they hold, the calls of the initialisation found in the
    trace are a prefix of: make the client, configure the e-mail,
    configure the name.  Each happens at most once, in this order, and
    none happens in a process whose [once] is spent. *)
Theorem initialisation_happens_at_most_once
    (ms : list PubSubMessage) (w : World) :
  exists evs,
    emits w (Run_each env ms w) evs
    /\ filter (fun e => is_init_event e = true) evs `prefix_of` init_calls env
    /\ (once_done w = true -> Forall (fun e => is_init_event e = false) evs).
Proof.
  revert w. induction ms as [|m rest IH]; intros w.
  { exists []. split; [apply emits_refl|]. split; [apply prefix_nil | constructor]. }
  simpl. destruct (Run_init_calls m w) as (ev1 & Hem1 & Hspent & Hfresh).
  assert (Hstop : (once_done w = true -> Forall (fun e => is_init_event e = false) ev1)
                  /\ filter (fun e => is_init_event e = true) ev1
                     `prefix_of` init_calls env).
  { destruct (once_done w).
    - destruct (Hspent eq_refl) as [_ Hno]. split; [done|].
      rewrite (filter_init_none _ Hno). apply prefix_nil.
    - split; [discriminate|].
      destruct (Hfresh eq_refl) as [[_ Hno] | [_ Hp]]; [|done].
      rewrite (filter_init_none _ Hno). apply prefix_nil. }
  destruct (Run env m w) as [[r|] w1] eqn:HR; simpl in *.
  2:{ exists ev1. by destruct Hstop. }
  destruct (IH w1) as (ev2 & Hem2 & Hp2 & Hno2).
  exists (ev1 ++ ev2). split; [by eapply emits_trans|].
  rewrite filter_app. destruct (once_done w) eqn:Hw.
  - destruct (Hspent eq_refl) as [Ho1 Hno1].
    rewrite (filter_init_none _ Hno1), (filter_init_none _ (Hno2 Ho1)).
    split; [apply prefix_nil|]. intros _. apply Forall_app.
    split; [done | by apply Hno2].
  - split; [|discriminate].
    destruct (Hfresh eq_refl) as [[Ho1 Hno1] | [Ho1 Hp1]].
    + by rewrite (filter_init_none _ Hno1).
    + by rewrite (filter_init_none _ (Hno2 Ho1)), app_nil_r.
Qed.

End Once.

(** ** Handles *)


(** ** The job's fields *)

Section Fields.
Context (env : Env) (d : Data) (s : string).

Lemma write_files_ignores_StorageFilePath bucket files w :
  write_files env (with_StorageFilePath s d) bucket files w
  = write_files env d bucket files w.
Proof.
  revert w. induction files as [|file rest IH]; intros w; simpl; [done|].
  change (_writeContentFromStorageToFile env (with_StorageFilePath s d) bucket file w)
    with (_writeContentFromStorageToFile env d bucket file w).
  destruct (_writeContentFromStorageToFile env d bucket file w) as [[e|] w1];
    [done | apply IH].
Qed.

Lemma writeContentFromStorageToFile_ignores_StorageFilePath w :
  writeContentFromStorageToFile env (with_StorageFilePath s d) w
  = writeContentFromStorageToFile env d w.
Proof.
  unfold writeContentFromStorageToFile. destruct (storageClient w); [|done].
  simpl. destruct (drain env _ _ _) as [[e|files] w2]; [done|].
  by rewrite write_files_ignores_StorageFilePath.
Qed.

(** X10. The field storage_file_path plays no part: with any other value
    in it, [process] makes the same calls, leaves the same state and
    returns the same result.  What is copied is decided by the listing
    under user_id alone, and what is staged by project_name and
    file_name. *)
Theorem process_ignores_StorageFilePath (w : World) :
  process env (with_StorageFilePath s d) w = process env d w.
Proof.
  unfold process, process_body.
  change (makeWorkingDir env (with_StorageFilePath s d) w)
    with (makeWorkingDir env d w).
  destruct (makeWorkingDir env d w) as [[e1|] w1]; [done|].
  change (cloneGithubRepo env (with_StorageFilePath s d) w1)
    with (cloneGithubRepo env d w1).
  destruct (cloneGithubRepo env d w1) as [[e2|] w2]; [done|].
  rewrite writeContentFromStorageToFile_ignores_StorageFilePath.
  destruct (writeContentFromStorageToFile env d w2) as [[[e3|]|] w3]; try done.
Qed.

End Fields.

(** ** Paths *)

(** X11. The path helpers agree with each other and with what the commit
    stage does: the file path is the project path followed by the file
    name; it is the path that [git add] is given, taken from the
    directory [git add] runs in; and the repository path, the project
    path and the file path all begin with the workspace path and a
    slash. *)
Theorem job_paths_compose (d : Data) :
  localFilePath d = localProjectPath d +:+ "/" +:+ FileName d
  /\ localFilePath d = localRepoPath d +:+ "/" +:+ localRelativeFilePath d
  /\ localFilePath d
     = "/tmp/" +:+ UserID d +:+ "/" +:+ RepoName d +:+ "/"
       +:+ ProjectName d +:+ "/" +:+ FileName d
  /\ HasPrefix (localRepoPath d) (localWorkingDir d +:+ "/") = true
  /\ HasPrefix (localProjectPath d) (localWorkingDir d +:+ "/") = true
  /\ HasPrefix (localFilePath d) (localWorkingDir d +:+ "/") = true.
Proof.
  unfold localFilePath, localProjectPath, localRelativeFilePath, localRepoPath,
    localWorkingDir, HasPrefix.
  set (wd := "/tmp/" +:+ UserID d).
  repeat split.
  - by rewrite !append_assoc.
  - unfold wd. by rewrite !append_assoc.
  - rewrite <- (append_assoc wd "/" (RepoName d)). apply prefix_app.
  - rewrite <- (append_assoc wd "/" (RepoName d)), append_assoc.
    apply prefix_app.
  - rewrite <- (append_assoc wd "/" (RepoName d)), append_assoc.
    apply prefix_app.
Qed.

(** ** What the cleanup leaves *)











(** ** A workspace that is already there *)

(** X13. A job that finds [/tmp/<user_id>] already there does not only
    fail at the creation: its deferred cleanup then removes that
    directory and everything below it (when the removal succeeds),
    whoever made them.  For a second job of a user whose first job is
    still running, this is the first job's workspace. *)
Theorem job_that_finds_its_workspace_removes_it
    (env : Env) (d : Data) (w : World) :
  is_Some (fs w !! localWorkingDir d) ->
  os_RemoveAll_fault env (trace w ++ [EvMkdir (localWorkingDir d)])
                     (localWorkingDir d) = None ->
  (process env d w).1
  = Returned (New (Some (EEXIST "mkdir" (localWorkingDir d))) "makeWorkingDir")
  /\ fs (process env d w).2 !! localWorkingDir d = None
  /\ (forall k, under (localWorkingDir d) k = true ->
                fs (process env d w).2 !! k = None).
Proof.
  intros Hex Hok.
  assert (Hall : forall k, under (localWorkingDir d) k = true ->
                           fs (process env d w).2 !! k = None).
  { intros k Hk. unfold process, process_body.
    rewrite (makeWorkingDir_exists env d w Hex). simpl.
    unfold cleanup, os_RemoveAll. simpl. rewrite Hok. simpl.
    apply map_lookup_filter_None. right. intros n _. simpl. by rewrite Hk. }
  split; [|split; [apply Hall, under_self | exact Hall]].
  unfold process, process_body. by rewrite (makeWorkingDir_exists env d w Hex).
Qed.

(** X13, at a concrete input: the workspace of u1 holds a cloned
    repository when a second job of u1 starts. *)
Lemma job_that_finds_its_workspace_removes_it_witness :
  let w := with_fs (<["/tmp/u1/notes" := Dir]> (<["/tmp/u1" := Dir]> (fs warm))) warm in
  fs w !! "/tmp/u1/notes" = Some Dir
  /\ fs (process calm_env job_u1 w).2 !! "/tmp/u1/notes" = None.
Proof.
  cbv zeta. split; [reflexivity|].
  destruct (job_that_finds_its_workspace_removes_it calm_env job_u1
              (with_fs (<["/tmp/u1/notes" := Dir]> (<["/tmp/u1" := Dir]> (fs warm))) warm))
    as (_ & _ & Hall).
  - vm_compute. eauto.
  - reflexivity.
  - apply Hall. reflexivity.
Defined.

(** ** Where the copies land *)

Section Landing.
Context (env : Env) (d : Data).






End Landing.

